(** * Secure local password vault: key management and master-password rotation

    A shallow embedding of [backend/crypto_manager.py], [backend/db_manager.py]
    and the request handlers of [backend/app.py].

    - The SQLite file [vault.db] is a record of three tables; a table with an
      [INTEGER PRIMARY KEY AUTOINCREMENT] column is the list of its rows in
      rowid order together with its [sqlite_sequence] counter, the [config]
      table ([key TEXT PRIMARY KEY]) is a finite map from keys to blobs.
    - The process-wide [crypto = CryptoManager()] object, the snapshot
      directory, the entropy pool read by [os.urandom] and the clock read by
      [time.time] make up the rest of the [World].
    - Every function that touches the world is a computation in the monad
      [M]: it threads the world, may raise a Python exception, and records
      the calls it makes to the outside (SQL statements, Argon2, AES-GCM,
      [print]) in a trace of [event]s.
    - Argon2, AES-GCM and the UTF-8 codec are libraries, not code of the
      repository: they are the operations of the class [Primitives]. *)

From Stdlib Require Import ZArith List String Lia.
From Stdlib Require Strings.Byte.
From stdpp Require Import base option list gmap strings.

Open Scope string_scope.
Open Scope Z_scope.
Open Scope list_scope.
Open Scope stdpp_scope.

Abbreviation byte := Byte.byte.
Abbreviation bytes := (list Byte.byte).

#[global] Instance byte_eq_dec : EqDecision byte := Byte.byte_eq_dec.

(** ** Python values *)

(** Exceptions the code raises or lets through, and the pieces of an
    f-string ([f"Failed to decrypt ID {row['id']}: {e}"]). *)
Inductive exn : Type :=
| HTTPException (status_code : Z) (detail : list fragment)
| ValueError (msg : string)
| InvalidTag
| UnicodeDecodeError
| HashingError
| VerifyMismatchError
with fragment : Type :=
| Lit (s : string)
| Int (i : Z)
| Exc (e : exn).

Inductive result (A : Type) : Type :=
| Ok (a : A)
| Raise (e : exn).
Arguments Ok {A} a.
Arguments Raise {A} e.

(** Truth value of a [bytes] or [str] object that may be [None]. *)
Definition truthy_bytes (o : option bytes) : bool :=
  match o with
  | Some (_ :: _) => true
  | _ => false
  end.

Definition truthy_str (o : option string) : bool :=
  match o with
  | Some (String _ _) => true
  | _ => false
  end.

(** ** The persisted store ([vault.db]) *)

Record PasswordRow : Type := {
  pw_id : Z;
  pw_service : string;
  pw_username : string;
  pw_encrypted_data : bytes;
  pw_nonce : bytes
}.

Record AttachmentRow : Type := {
  att_id : Z;
  att_password_id : Z;
  att_filename : string;
  att_encrypted_data : bytes;
  att_nonce : bytes
}.

Record Database : Type := {
  passwords : list PasswordRow;
  passwords_seq : Z;
  config : gmap string bytes;
  attachments : list AttachmentRow;
  attachments_seq : Z
}.

(** The store right after [init_db] on a missing file. *)
Definition empty_db : Database :=
  {| passwords := []; passwords_seq := 0; config := ∅;
     attachments := []; attachments_seq := 0 |}.

Definition set_passwords (rows : list PasswordRow) (seq : Z) (d : Database) : Database :=
  {| passwords := rows; passwords_seq := seq; config := config d;
     attachments := attachments d; attachments_seq := attachments_seq d |}.

Definition set_config (c : gmap string bytes) (d : Database) : Database :=
  {| passwords := passwords d; passwords_seq := passwords_seq d; config := c;
     attachments := attachments d; attachments_seq := attachments_seq d |}.

Definition set_attachments (rows : list AttachmentRow) (seq : Z) (d : Database) : Database :=
  {| passwords := passwords d; passwords_seq := passwords_seq d; config := config d;
     attachments := rows; attachments_seq := seq |}.

(** [AUTOINCREMENT]: the new rowid is one more than the largest rowid the
    table ever held; the first row of a table gets rowid 1. *)
Definition max_rowid (ids : list Z) : Z := foldr Z.max 0 ids.

Definition next_rowid (seq : Z) (ids : list Z) : Z := Z.max seq (max_rowid ids) + 1.

(** ** The process *)

Record CryptoManager : Type := { master_key : option bytes }.

Record World : Type := {
  db : Database;
  snapshots : gmap Z Database;
  crypto : CryptoManager;
  entropy : nat → byte;
  drawn : nat;
  now : Z
}.

Definition set_db (d : Database) (w : World) : World :=
  {| db := d; snapshots := snapshots w; crypto := crypto w;
     entropy := entropy w; drawn := drawn w; now := now w |}.

Definition set_snapshots (s : gmap Z Database) (w : World) : World :=
  {| db := db w; snapshots := s; crypto := crypto w;
     entropy := entropy w; drawn := drawn w; now := now w |}.

Definition set_crypto (c : CryptoManager) (w : World) : World :=
  {| db := db w; snapshots := snapshots w; crypto := c;
     entropy := entropy w; drawn := drawn w; now := now w |}.

Definition set_drawn (n : nat) (w : World) : World :=
  {| db := db w; snapshots := snapshots w; crypto := crypto w;
     entropy := entropy w; drawn := n; now := now w |}.

(** ** Calls to the outside, in the order they happen *)

Inductive table : Type := TPasswords | TConfig | TAttachments.

Inductive event : Type :=
| DbRead (t : table)
| DbWrite (t : table)
| SnapshotTaken
| Urandom (n : nat)
| KdfCall (secret salt : bytes)
| HashCall (password : string)
| VerifyCall (stored_hash : option string) (password : string)
| AeadEncrypt (nonce plaintext : bytes)
| AeadDecrypt (nonce ciphertext : bytes)
| Stdout (line : list fragment).

(** ** The monad of the handlers: world, trace, exceptions *)

Definition M (A : Type) : Type := World → list event * World * result A.

Definition ret {A} (a : A) : M A := λ w, ([], w, Ok a).

Definition raise {A} (e : exn) : M A := λ w, ([], w, Raise e).

Definition bind {A B} (m : M A) (f : A → M B) : M B := λ w,
  match m w with
  | (t1, w1, Ok a) => let '(t2, w2, r) := f a w1 in (t1 ++ t2, w2, r)
  | (t1, w1, Raise e) => (t1, w1, Raise e)
  end.

(** [try: m  except Exception as e: h e] *)
Definition try_except {A} (m : M A) (h : exn → M A) : M A := λ w,
  match m w with
  | (t1, w1, Raise e) => let '(t2, w2, r) := h e w1 in (t1 ++ t2, w2, r)
  | o => o
  end.

Definition emit (e : event) : M unit := λ w, ([e], w, Ok tt).

Definition gets {A} (f : World → A) : M A := λ w, ([], w, Ok (f w)).

Definition modify (f : World → World) : M unit := λ w, ([], f w, Ok tt).

#[global] Instance M_ret : MRet M := @ret.
#[global] Instance M_bind : MBind M := λ A B f m, bind m f.

Notation "m ;; k" := (bind m (λ _, k)) (at level 100, k at level 200, right associativity).

(** [acc = init; for x in l: acc = body acc x]: the loops of the handlers
    build a list this way; an exception that leaves the body ends the loop. *)
Fixpoint for_fold {A S} (body : S → A → M S) (l : list A) (acc : S) : M S :=
  match l with
  | [] => ret acc
  | x :: l' => acc' ← body acc x; for_fold body l' acc'
  end.

(** [os.urandom(n)]: the next [n] bytes of the entropy pool. *)
Definition os_urandom (n : nat) : M bytes := λ w,
  ([Urandom n], set_drawn (drawn w + n)%nat w, Ok (map (entropy w) (seq (drawn w) n))).

(** ** The libraries *)

Class Primitives : Type := {
  (** [argon2.low_level.hash_secret_raw(secret, salt, time_cost=30,
      memory_cost=204800, parallelism=4, hash_len=32, type=Type.ID)];
      [None] when it raises. *)
  hash_secret_raw : bytes → bytes → option bytes;
  (** [PasswordHasher().hash(password)], given the random salt it draws. *)
  ph_hash : bytes → string → string;
  (** [PasswordHasher().verify(hash, password)]; [false] when it raises. *)
  ph_verify : string → string → bool;
  (** [AESGCM(key).encrypt(nonce, data, None)]: ciphertext with the tag appended. *)
  aesgcm_encrypt : bytes → bytes → bytes → bytes;
  (** [AESGCM(key).decrypt(nonce, data, None)]; [None] when it raises. *)
  aesgcm_decrypt : bytes → bytes → bytes → option bytes;
  (** [str.encode()] and [bytes.decode()] (UTF-8); [None] when decoding raises. *)
  str_encode : string → bytes;
  str_decode : bytes → option string
}.

(** What the libraries guarantee, as far as the theorems below need it. *)
Class KdfLaws `{Primitives} : Prop := {
  kdf_total : ∀ secret salt, length salt = 16%nat → is_Some (hash_secret_raw secret salt);
  kdf_length : ∀ secret salt k, hash_secret_raw secret salt = Some k → length k = 32%nat
}.

Class AeadLaws `{Primitives} : Prop := {
  aead_round_trip : ∀ k n p, length k = 32%nat → length n = 12%nat →
    aesgcm_decrypt k n (aesgcm_encrypt k n p) = Some p
}.

Class HasherLaws `{Primitives} : Prop := {
  hasher_accepts : ∀ r pw, length r = 16%nat → ph_verify (ph_hash r pw) pw = true;
  hasher_nonempty : ∀ r pw, ph_hash r pw ≠ ""
}.

Class CodecLaws `{Primitives} : Prop := {
  decode_encode : ∀ s, str_decode (str_encode s) = Some s
}.

(** ** backend/db_manager.py *)

Module db_manager.
Section db_manager.
Context `{Primitives}.

(** A [SELECT] and a data-changing statement on the connection. The
    statements of this file never fail in the model: disk and locking
    errors of SQLite are outside it. *)
Definition query {A} (t : table) (f : Database → A) : M A :=
  emit (DbRead t);; gets (λ w, f (db w)).

Definition execute (t : table) (f : Database → Database) : M unit :=
  emit (DbWrite t);; modify (λ w, set_db (f (db w)) w).

(** [create_snapshot]: copies [vault.db] to [snapshots/vault_<seconds>.db];
    a copy made in the same second replaces the earlier one. The file
    exists once [init_db] has run at startup. *)
Definition create_snapshot : M unit :=
  emit SnapshotTaken;;
  modify (λ w, set_snapshots (<[now w := db w]> (snapshots w)) w).

Definition insert_password (service username : string) (encrypted_data nonce : bytes)
    (d : Database) : Database :=
  let rowid := next_rowid (passwords_seq d) (map pw_id (passwords d)) in
  set_passwords
    (passwords d ++ [ {| pw_id := rowid; pw_service := service; pw_username := username;
                         pw_encrypted_data := encrypted_data; pw_nonce := nonce |} ])
    rowid d.

Definition store_password (service username : string) (encrypted_data nonce : bytes) : M unit :=
  create_snapshot;;
  execute TPasswords (insert_password service username encrypted_data nonce).

Definition get_passwords : M (list PasswordRow) :=
  query TPasswords passwords.

Definition set_master_config (salt : bytes) (password_hash : string) : M unit :=
  execute TConfig (λ d, set_config (<["salt" := salt]> (config d)) d);;
  execute TConfig (λ d, set_config (<["password_hash" := str_encode password_hash]> (config d)) d).

Definition get_master_config : M (option bytes * option string) :=
  salt_row ← query TConfig (λ d, config d !! "salt");
  hash_row ← query TConfig (λ d, config d !! "password_hash");
  let salt := salt_row in
  pw_hash ← match hash_row with
            | Some value =>
                match str_decode value with
                | Some s => ret (Some s)
                | None => raise UnicodeDecodeError
                end
            | None => ret None
            end;
  ret (salt, pw_hash).

Definition get_password_by_id (pw_id' : Z) : M (option PasswordRow) :=
  query TPasswords (λ d, head (filter (λ r, pw_id r = pw_id') (passwords d))).

(** [UPDATE passwords SET encrypted_data=?, nonce=? WHERE id=?] *)
Definition update_ciphertext (encrypted_data nonce : bytes) (rowid : Z)
    (rows : list PasswordRow) : list PasswordRow :=
  map (λ r, if decide (pw_id r = rowid)
            then {| pw_id := pw_id r; pw_service := pw_service r; pw_username := pw_username r;
                    pw_encrypted_data := encrypted_data; pw_nonce := nonce |}
            else r) rows.

Definition update_password (pw_id' : Z) (service username : string)
    (encrypted_data nonce : bytes) : M unit :=
  create_snapshot;;
  execute TPasswords (λ d, set_passwords
    (map (λ r, if decide (pw_id r = pw_id')
               then {| pw_id := pw_id r; pw_service := service; pw_username := username;
                       pw_encrypted_data := encrypted_data; pw_nonce := nonce |}
               else r) (passwords d))
    (passwords_seq d) d).

Definition delete_password (pw_id' : Z) : M unit :=
  create_snapshot;;
  execute TPasswords (λ d, set_passwords
    (filter (λ r, pw_id r ≠ pw_id') (passwords d)) (passwords_seq d) d).

(** One entry of [updated_entries]: the dict [{id, encrypted_data, nonce}]. *)
Record UpdatedEntry : Type := {
  upd_id : Z;
  upd_encrypted_data : bytes;
  upd_nonce : bytes
}.

(** [c.executemany("UPDATE passwords SET encrypted_data=?, nonce=? WHERE id=?", data)] *)
Definition executemany_update (data : list (bytes * bytes * Z)) (d : Database) : Database :=
  set_passwords
    (foldl (λ rows '(encrypted_data, nonce, rowid), update_ciphertext encrypted_data nonce rowid rows)
           (passwords d) data)
    (passwords_seq d) d.

(** One transaction: the statements change the store, [conn.rollback()]
    puts back the store the transaction started from. *)
Definition batch_update_passwords_and_config (updated_entries : list UpdatedEntry)
    (new_salt : bytes) (new_pw_hash : string) : M unit :=
  create_snapshot;;
  conn ← gets db;
  try_except
    (let data := map (λ entry, (upd_encrypted_data entry, upd_nonce entry, upd_id entry))
                     updated_entries in
     execute TPasswords (executemany_update data);;
     execute TConfig (λ d, set_config (<["salt" := new_salt]> (config d)) d);;
     execute TConfig (λ d, set_config (<["password_hash" := str_encode new_pw_hash]> (config d)) d))
    (λ e, modify (set_db conn);; raise e).

Definition insert_attachment (password_id : Z) (filename : string)
    (encrypted_data nonce : bytes) (d : Database) : Database :=
  let rowid := next_rowid (attachments_seq d) (map att_id (attachments d)) in
  set_attachments
    (attachments d ++ [ {| att_id := rowid; att_password_id := password_id;
                           att_filename := filename;
                           att_encrypted_data := encrypted_data; att_nonce := nonce |} ])
    rowid d.

Definition add_attachment (password_id : Z) (filename : string)
    (encrypted_data nonce : bytes) : M unit :=
  create_snapshot;;
  execute TAttachments (insert_attachment password_id filename encrypted_data nonce).

(** [SELECT id, filename FROM attachments WHERE password_id=?] *)
Definition get_attachments (password_id : Z) : M (list (Z * string)) :=
  query TAttachments (λ d,
    map (λ r, (att_id r, att_filename r))
        (filter (λ r, att_password_id r = password_id) (attachments d))).

Definition get_attachment (attachment_id : Z) : M (option AttachmentRow) :=
  query TAttachments (λ d, head (filter (λ r, att_id r = attachment_id) (attachments d))).

Definition delete_attachment (attachment_id : Z) : M unit :=
  create_snapshot;;
  execute TAttachments (λ d, set_attachments
    (filter (λ r, att_id r ≠ attachment_id) (attachments d)) (attachments_seq d) d).
End db_manager.
End db_manager.

(** ** backend/crypto_manager.py *)

(** The dict [{"nonce": ..., "ciphertext": ...}] returned by [encrypt]. *)
Record Encrypted : Type := {
  enc_nonce : bytes;
  enc_ciphertext : bytes
}.

Module crypto_manager.
Section crypto_manager.
Context `{Primitives}.

(** [CryptoManager()] *)
Definition new : CryptoManager := {| master_key := None |}.

Definition derive_key (password : string) (salt : bytes) : M bytes :=
  emit (KdfCall (str_encode password) salt);;
  match hash_secret_raw (str_encode password) salt with
  | Some key => ret key
  | None => raise HashingError
  end.

Definition generate_salt : M bytes := os_urandom 16.

(** Returns the flag and the object with its [master_key] as the call leaves it. *)
Definition unlock (self : CryptoManager) (password : string) (stored_salt : option bytes)
    : M (bool * CryptoManager) :=
  match stored_salt with
  | None => ret (false, self)
  | Some salt =>
      try_except
        (key ← derive_key password salt;
         ret (true, {| master_key := Some key |}))
        (λ e, emit (Stdout [Lit "Key derivation failed: "; Exc e]);;
              ret (false, self))
  end.

Definition lock (self : CryptoManager) : CryptoManager := {| master_key := None |}.

Definition is_unlocked (self : CryptoManager) : bool :=
  match master_key self with
  | Some _ => true
  | None => false
  end.

(** [AESGCM(key)]: the constructor accepts keys of 128, 192 and 256 bits. *)
Definition AESGCM (key : bytes) : M bytes :=
  if ((length key =? 16) || (length key =? 24) || (length key =? 32))%nat
  then ret key
  else raise (ValueError "AESGCM key must be 128, 192, or 256 bits.").

Definition encrypt_bytes (self : CryptoManager) (plaintext : bytes) : M Encrypted :=
  if negb (truthy_bytes (master_key self)) then raise (ValueError "Vault is locked.")
  else
    aesgcm ← AESGCM (default [] (master_key self));
    nonce ← os_urandom 12;
    emit (AeadEncrypt nonce plaintext);;
    let ciphertext_with_tag := aesgcm_encrypt aesgcm nonce plaintext in
    ret {| enc_nonce := nonce; enc_ciphertext := ciphertext_with_tag |}.

Definition encrypt (self : CryptoManager) (plaintext : string) : M Encrypted :=
  encrypt_bytes self (str_encode plaintext).

Definition decrypt_bytes (self : CryptoManager) (nonce ciphertext_with_tag : bytes) : M bytes :=
  if negb (truthy_bytes (master_key self)) then raise (ValueError "Vault is locked.")
  else
    aesgcm ← AESGCM (default [] (master_key self));
    emit (AeadDecrypt nonce ciphertext_with_tag);;
    match aesgcm_decrypt aesgcm nonce ciphertext_with_tag with
    | Some plaintext => ret plaintext
    | None => raise InvalidTag
    end.

Definition decrypt (self : CryptoManager) (nonce ciphertext_with_tag : bytes) : M string :=
  plaintext ← decrypt_bytes self nonce ciphertext_with_tag;
  match str_decode plaintext with
  | Some s => ret s
  | None => raise UnicodeDecodeError
  end.

(** [self.ph.hash(password)]: a fresh 16-byte salt, then Argon2. *)
Definition ph_hash_call (password : string) : M string :=
  r ← os_urandom 16;
  emit (HashCall password);;
  ret (ph_hash r password).

(** [self.ph.verify(hash, password)]: returns, or raises on a mismatch, on
    a malformed hash and on [None]. *)
Definition ph_verify_call (stored_hash : option string) (password : string) : M unit :=
  emit (VerifyCall stored_hash password);;
  match stored_hash with
  | Some h => if ph_verify h password then ret tt else raise VerifyMismatchError
  | None => raise VerifyMismatchError
  end.
End crypto_manager.
End crypto_manager.

(** ** backend/app.py *)

Record PasswordEntry : Type := {
  entry_id : option Z;
  entry_service : string;
  entry_username : string;
  entry_password : string
}.

Record PasswordResponse : Type := {
  resp_id : Z;
  resp_service : string;
  resp_username : string;
  resp_password : string
}.

(** What a handler returns. *)
Inductive response : Type :=
| Message (message : string)
| Status (initialized unlocked : bool)
| PasswordList (results : list PasswordResponse)
| PasswordItem (item : PasswordResponse)
| AttachmentList (items : list (Z * string))
| FileDownload (content : bytes) (filename : string).

(** The requests of the core; the CSV import endpoint, the static files and
    the rate limiter in front of the handlers are outside it. *)
Inductive request : Type :=
| GetStatus
| InitializeVault (password : string)
| UnlockVault (password : string)
| LockVault
| ListPasswords
| AddPassword (entry : PasswordEntry)
| ChangeMasterPassword (current_password new_password : string)
| ListAttachments (entry_id : Z)
| UploadAttachment (entry_id : Z) (filename : string) (content : bytes)
| DownloadAttachment (attachment_id : Z)
| DeleteAttachment (attachment_id : Z).

Module app.
Section app.
Context `{Primitives}.

(** A method call on the process-wide [crypto] object, and one that
    assigns to its attributes. *)
Definition call {A} (method : CryptoManager → M A) : M A :=
  self ← gets crypto; method self.

Definition call_mut {A} (method : CryptoManager → M (A * CryptoManager)) : M A :=
  self ← gets crypto;
  '(a, self') ← method self;
  modify (set_crypto self');;
  ret a.

(** The dependency [Depends(get_crypto)]; it runs before the handler body. *)
Definition get_crypto : M unit :=
  unlocked ← call (λ self, ret (crypto_manager.is_unlocked self));
  if negb unlocked
  then raise (HTTPException 401 [Lit "Vault is locked"])
  else ret tt.

Definition get_status : M response :=
  '(salt, _) ← db_manager.get_master_config;
  let is_initialized := match salt with Some _ => true | None => false end in
  unlocked ← call (λ self, ret (crypto_manager.is_unlocked self));
  ret (Status is_initialized unlocked).

Definition initialize_vault (password : string) : M response :=
  '(existing_salt, _) ← db_manager.get_master_config;
  if truthy_bytes existing_salt
  then raise (HTTPException 400 [Lit "Vault already initialized"])
  else
    salt ← crypto_manager.generate_salt;
    pw_hash ← crypto_manager.ph_hash_call password;
    db_manager.set_master_config salt pw_hash;;
    _ ← call_mut (λ self, crypto_manager.unlock self password (Some salt));
    ret (Message "Vault initialized and unlocked").

Definition unlock_vault (password : string) : M response :=
  '(salt, stored_hash) ← db_manager.get_master_config;
  if negb (truthy_bytes salt) || negb (truthy_str stored_hash)
  then raise (HTTPException 400 [Lit "Vault not initialized"])
  else
    try_except (crypto_manager.ph_verify_call stored_hash password)
               (λ _, raise (HTTPException 401 [Lit "Invalid password"]));;
    success ← call_mut (λ self, crypto_manager.unlock self password salt);
    if negb success
    then raise (HTTPException 500 [Lit "Key derivation failed"])
    else ret (Message "Vault unlocked").

Definition lock_vault : M response :=
  self ← gets crypto;
  modify (set_crypto (crypto_manager.lock self));;
  ret (Message "Vault locked").

Definition list_passwords : M response :=
  get_crypto;;
  rows ← db_manager.get_passwords;
  results ← for_fold (λ results row,
      try_except
        (decrypted_pw ← call (λ c, crypto_manager.decrypt c (pw_nonce row) (pw_encrypted_data row));
         ret (results ++ [ {| resp_id := pw_id row; resp_service := pw_service row;
                              resp_username := pw_username row;
                              resp_password := decrypted_pw |} ]))
        (λ e, emit (Stdout [Lit "Failed to decrypt ID "; Int (pw_id row); Lit ": "; Exc e]);;
              ret results))
    rows [];
  ret (PasswordList results).

Definition add_password (entry : PasswordEntry) : M response :=
  get_crypto;;
  encrypted ← call (λ c, crypto_manager.encrypt c (entry_password entry));
  db_manager.store_password (entry_service entry) (entry_username entry)
                            (enc_ciphertext encrypted) (enc_nonce encrypted);;
  ret (PasswordItem {| resp_id := 0; resp_service := entry_service entry;
                       resp_username := entry_username entry;
                       resp_password := entry_password entry |}).

Definition change_master_password (current_password new_password : string) : M response :=
  get_crypto;;
  '(_, stored_hash) ← db_manager.get_master_config;
  try_except (crypto_manager.ph_verify_call stored_hash current_password)
             (λ _, raise (HTTPException 401 [Lit "Invalid current password"]));;
  rows ← db_manager.get_passwords;
  decrypted_entries ← for_fold (λ decrypted_entries row,
      try_except
        (pt ← call (λ c, crypto_manager.decrypt c (pw_nonce row) (pw_encrypted_data row));
         ret (decrypted_entries ++ [(pw_id row, pt)]))
        (λ e, raise (HTTPException 500
                [Lit "Failed to decrypt password ID "; Int (pw_id row);
                 Lit ". Aborting rotation."])))
    rows [];
  new_salt ← crypto_manager.generate_salt;
  new_pw_hash ← crypto_manager.ph_hash_call new_password;
  '(derived, temp_crypto) ← crypto_manager.unlock crypto_manager.new new_password (Some new_salt);
  if negb derived
  then raise (HTTPException 500 [Lit "Failed to derive new key"])
  else
    re_encrypted_entries ← for_fold (λ re_encrypted_entries '(entry_id, plaintext),
        enc ← crypto_manager.encrypt temp_crypto plaintext;
        ret (re_encrypted_entries ++
             [ {| db_manager.upd_id := entry_id;
                  db_manager.upd_encrypted_data := enc_ciphertext enc;
                  db_manager.upd_nonce := enc_nonce enc |} ]))
      decrypted_entries [];
    try_except
      (db_manager.batch_update_passwords_and_config re_encrypted_entries new_salt new_pw_hash)
      (λ e, raise (HTTPException 500 [Lit "Database update failed: "; Exc e]));;
    _ ← call_mut (λ c, crypto_manager.unlock c new_password (Some new_salt));
    ret (Message "Master password changed successfully").

Definition list_attachments (entry_id : Z) : M response :=
  get_crypto;;
  rows ← db_manager.get_attachments entry_id;
  ret (AttachmentList rows).

Definition upload_attachment (entry_id : Z) (filename : string) (content : bytes) : M response :=
  get_crypto;;
  try_except
    (enc ← call (λ c, crypto_manager.encrypt_bytes c content);
     db_manager.add_attachment entry_id filename (enc_ciphertext enc) (enc_nonce enc);;
     ret (Message "Attachment uploaded"))
    (λ e, raise (HTTPException 500 [Exc e])).

Definition download_attachment (attachment_id : Z) : M response :=
  get_crypto;;
  row ← db_manager.get_attachment attachment_id;
  match row with
  | None => raise (HTTPException 404 [Lit "Attachment not found"])
  | Some row =>
      try_except
        (pt ← call (λ c, crypto_manager.decrypt_bytes c (att_nonce row) (att_encrypted_data row));
         ret (FileDownload pt (att_filename row)))
        (λ e, raise (HTTPException 500 [Lit "Decryption failed: "; Exc e]))
  end.

Definition delete_attachment (attachment_id : Z) : M response :=
  get_crypto;;
  db_manager.delete_attachment attachment_id;;
  ret (Message "Attachment deleted").

(** The routes. *)
Definition handle (req : request) : M response :=
  match req with
  | GetStatus => get_status
  | InitializeVault password => initialize_vault password
  | UnlockVault password => unlock_vault password
  | LockVault => lock_vault
  | ListPasswords => list_passwords
  | AddPassword entry => add_password entry
  | ChangeMasterPassword current_password new_password =>
      change_master_password current_password new_password
  | ListAttachments entry_id => list_attachments entry_id
  | UploadAttachment entry_id filename content => upload_attachment entry_id filename content
  | DownloadAttachment attachment_id => download_attachment attachment_id
  | DeleteAttachment attachment_id => delete_attachment attachment_id
  end.

(** The routes declared with [Depends(get_crypto)]. *)
Definition requires_unlocked (req : request) : bool :=
  match req with
  | GetStatus | InitializeVault _ | UnlockVault _ | LockVault => false
  | _ => true
  end.
End app.
End app.

(** ** Vocabulary of the properties *)

(** The three parts of what a computation leaves behind. *)
Definition trace_of {A} (o : list event * World * result A) : list event := o.1.1.
Definition world_of {A} (o : list event * World * result A) : World := o.1.2.
Definition result_of {A} (o : list event * World * result A) : result A := o.2.

(** The store holds a MasterConfig: a 16-byte salt and a verifier hash. *)
Definition has_master_config `{Primitives} (d : Database) (salt : bytes) (h : string) : Prop :=
  config d !! "salt" = Some salt ∧ length salt = 16%nat ∧
  ∃ blob, config d !! "password_hash" = Some blob ∧ str_decode blob = Some h ∧ h ≠ "".

(** No MasterConfig at all: the vault is uninitialized. *)
Definition no_master_config (d : Database) : Prop :=
  config d !! "salt" = None ∧ config d !! "password_hash" = None.

(** Runs requests one after the other. *)
Fixpoint serve `{Primitives} (reqs : list request) (w : World)
    : list (list event * result response) * World :=
  match reqs with
  | [] => ([], w)
  | req :: reqs' =>
      let '(t, w1, r) := app.handle req w in
      let '(rs, w2) := serve reqs' w1 in
      ((t, r) :: rs, w2)
  end.

Ltac unfold_monad :=
  unfold mbind, M_bind, bind, try_except, emit, gets, modify, ret, raise in *.

(** Decrypting a stored secret with the live key, as [list_passwords] and
    [change_master_password] do it. *)
Definition attempt `{Primitives} (w : World) (row : PasswordRow)
    : list event * World * result string :=
  crypto_manager.decrypt (crypto w) (pw_nonce row) (pw_encrypted_data row) w.

Definition decrypts `{Primitives} (w : World) (row : PasswordRow) : Prop :=
  ∃ pt, result_of (attempt w row) = Ok pt.

(** The events that change the store, the snapshots or the entropy pool. *)
Definition is_write (ev : event) : bool :=
  match ev with
  | DbWrite _ | SnapshotTaken | Urandom _ => true
  | _ => false
  end.

(** The store holds a verifier hash that decodes to [h]. *)
Definition stored_verifier `{Primitives} (d : Database) (h : string) : Prop :=
  ∃ blob, config d !! "password_hash" = Some blob ∧ str_decode blob = Some h.

(** What the first loop of [change_master_password] collects when every
    row decrypts: the id and the plaintext of each row. *)
Definition plaintexts `{Primitives} (w : World) (rows : list PasswordRow) : list (Z * string) :=
  omap (λ row, match result_of (attempt w row) with
               | Ok pt => Some (pw_id row, pt)
               | Raise _ => None
               end) rows.

(** What its second loop builds with a usable key: each plaintext under a
    nonce of 12 bytes taken from the entropy pool at [pos], [pos + 12], ... *)
Fixpoint reencrypt `{Primitives} (key : bytes) (e : nat → byte) (pos : nat)
    (entries : list (Z * string)) : list db_manager.UpdatedEntry :=
  match entries with
  | [] => []
  | (entry_id, plaintext) :: entries' =>
      let nonce := map e (seq pos 12) in
      {| db_manager.upd_id := entry_id;
         db_manager.upd_encrypted_data := aesgcm_encrypt key nonce (str_encode plaintext);
         db_manager.upd_nonce := nonce |}
      :: reencrypt key e (pos + 12)%nat entries'
  end.

(** A row after the [UPDATE] that carries the entry's id. *)
Definition apply_update (row : PasswordRow) (u : db_manager.UpdatedEntry) : PasswordRow :=
  {| pw_id := pw_id row; pw_service := pw_service row; pw_username := pw_username row;
     pw_encrypted_data := db_manager.upd_encrypted_data u;
     pw_nonce := db_manager.upd_nonce u |}.

(** The world a completed rotation leaves. *)
Definition rotated `{Primitives} (w : World) (new_password : string) (new_key : bytes) : World :=
  let new_salt := map (entropy w) (seq (drawn w) 16) in
  let r := map (entropy w) (seq (drawn w + 16)%nat 16) in
  let entries := plaintexts w (passwords (db w)) in
  let updated := reencrypt new_key (entropy w) (drawn w + 32)%nat entries in
  let data := map (λ entry, (db_manager.upd_encrypted_data entry, db_manager.upd_nonce entry,
                             db_manager.upd_id entry)) updated in
  {| db := set_config
             (<["password_hash" := str_encode (ph_hash r new_password)]>
                (<["salt" := new_salt]> (config (db w))))
             (db_manager.executemany_update data (db w));
     snapshots := <[now w := db w]> (snapshots w);
     crypto := {| master_key := Some new_key |};
     entropy := entropy w;
     drawn := (drawn w + 32 + 12 * length entries)%nat;
     now := now w |}.

(** The primary keys of the two tables: no id occurs twice. *)
Definition primary_keys (d : Database) : Prop :=
  NoDup (map pw_id (passwords d)) ∧ NoDup (map att_id (attachments d)).

(** A computation keeps a property of the world, however it ends. *)
Definition preserves {A} (I : World → Prop) (m : M A) : Prop :=
  ∀ w, I w → I (world_of (m w)).

(** The world after a write that goes through [db_manager]: the store as it
    was is saved under the current second, then the store is replaced. *)
Definition after_write (d' : Database) (w : World) : World :=
  {| db := d'; snapshots := <[now w := db w]> (snapshots w); crypto := crypto w;
     entropy := entropy w; drawn := drawn w; now := now w |}.


(** The requests that only read. *)
Definition reads_only (req : request) : bool :=
  match req with
  | GetStatus | ListPasswords | ListAttachments _ | DownloadAttachment _ => true
  | _ => false
  end.





(** The same world at another second of the clock. *)
Definition at_time (t : Z) (w : World) : World :=
  {| db := db w; snapshots := snapshots w; crypto := crypto w;
     entropy := entropy w; drawn := drawn w; now := t |}.




(** The row [SELECT * FROM passwords WHERE id=?] fetches. *)
Definition find_password (rowid : Z) (d : Database) : option PasswordRow :=
  head (filter (λ r, pw_id r = rowid) (passwords d)).

(** ** Stand-in libraries

    Executable stand-ins for Argon2, AES-GCM and the codec, to run the
    handlers on concrete requests. They keep the shapes of the real ones (a
    32-byte key from password and salt, a 16-byte tag after the payload,
    rejection of a tag made under another key) and none of their strength. *)

Module StandIn.
Definition xor_byte (a b : byte) : byte :=
  default Byte.x00 (Byte.of_N (N.lxor (Byte.to_N a) (Byte.to_N b))).

Definition pad_to (n : nat) (l : bytes) : bytes := take n (l ++ replicate n Byte.x00).

(** Argon2 refuses salts shorter than 8 bytes. *)
Definition kdf (secret salt : bytes) : option bytes :=
  if (length salt <? 8)%nat then None else Some (pad_to 32 (salt ++ secret)).

Definition tag (key nonce : bytes) : bytes :=
  pad_to 16 (zip_with xor_byte (take 16 key) (drop 16 key)).

Definition seal (key nonce data : bytes) : bytes := data ++ tag key nonce.

Definition open (key nonce data : bytes) : option bytes :=
  let n := (length data - 16)%nat in
  if decide (16 ≤ length data)%nat
  then if decide (drop n data = tag key nonce) then Some (take n data) else None
  else None.

#[global] Instance primitives : Primitives := {|
  hash_secret_raw := kdf;
  ph_hash := λ _ password, "$stand-in$" +:+ password;
  ph_verify := λ h password, bool_decide (h = "$stand-in$" +:+ password);
  aesgcm_encrypt := seal;
  aesgcm_decrypt := open;
  str_encode := list_byte_of_string;
  str_decode := λ b, Some (string_of_list_byte b)
|}.

(** A world to start from: the empty store after [init_db], a locked
    process, and an entropy pool that counts. *)
Definition world0 : World :=
  {| db := empty_db; snapshots := ∅; crypto := crypto_manager.new;
     entropy := λ i, default Byte.x00 (Byte.of_nat (i mod 256));
     drawn := 0; now := 1700000000 |}.

Definition entry1 : PasswordEntry :=
  {| entry_id := None; entry_service := "email"; entry_username := "a@x.com";
     entry_password := "hunter2" |}.

(** Scenario: [init("Secret1")], one secret, one attachment. *)
Definition world1 : World :=
  (serve [InitializeVault "Secret1"; AddPassword entry1;
          UploadAttachment 1 "notes.txt" [Byte.x41; Byte.x42]] world0).2.
(** The same vault with a second secret, and the ciphertext of the first
    one cut short out of band. *)
Definition entry2 : PasswordEntry :=
  {| entry_id := None; entry_service := "bank"; entry_username := "b@x.com";
     entry_password := "correct horse" |}.

Definition cut_short (row : PasswordRow) : PasswordRow :=
  {| pw_id := pw_id row; pw_service := pw_service row; pw_username := pw_username row;
     pw_encrypted_data := take 3 (pw_encrypted_data row); pw_nonce := pw_nonce row |}.

Definition world2 : World :=
  let w := (serve [AddPassword entry2] world1).2 in
  set_db (set_passwords
            (map (λ row, if decide (pw_id row = 1) then cut_short row else row)
                 (passwords (db w)))
            (passwords_seq (db w)) (db w)) w.

Definition key32 : bytes := pad_to 32 [Byte.x6b; Byte.x65; Byte.x79].

(** The live key of [world1]. *)
Definition key1 : bytes := default [] (master_key (crypto world1)).
End StandIn.

(** * Properties of the handlers *)

Section basics.
Context `{Primitives}.

Lemma set_crypto_same w : set_crypto (crypto w) w = w.
Proof. by destruct w. Qed.

Lemma get_master_config_spec w salt h :
  has_master_config (db w) salt h →
  db_manager.get_master_config w = ([DbRead TConfig; DbRead TConfig], w, Ok (Some salt, Some h)).
Proof.
  intros (Hs & _ & blob & Hb & Hd & _).
  unfold db_manager.get_master_config, db_manager.query. unfold_monad.
  simpl. by rewrite Hs, Hb, Hd.
Qed.

Lemma get_master_config_none w :
  no_master_config (db w) →
  db_manager.get_master_config w = ([DbRead TConfig; DbRead TConfig], w, Ok (None, None)).
Proof.
  intros [Hs Hb].
  unfold db_manager.get_master_config, db_manager.query. unfold_monad.
  simpl. by rewrite Hs, Hb.
Qed.

Lemma get_crypto_locked w :
  crypto_manager.is_unlocked (crypto w) = false →
  app.get_crypto w = ([], w, Raise (HTTPException 401 [Lit "Vault is locked"])).
Proof.
  intros Hl. unfold app.get_crypto, app.call. unfold_monad. simpl. by rewrite Hl.
Qed.

Lemma get_crypto_unlocked w :
  crypto_manager.is_unlocked (crypto w) = true →
  app.get_crypto w = ([], w, Ok tt).
Proof.
  intros Hl. unfold app.get_crypto, app.call. unfold_monad. simpl. by rewrite Hl.
Qed.

(** A guarded handler on a locked vault: the error of the guard, nothing else. *)
Lemma guarded_locked {A} (k : M A) w :
  crypto_manager.is_unlocked (crypto w) = false →
  (app.get_crypto;; k) w = ([], w, Raise (HTTPException 401 [Lit "Vault is locked"])).
Proof. intros Hl. unfold bind. by rewrite get_crypto_locked. Qed.

Lemma handle_locked req w :
  app.requires_unlocked req = true →
  crypto_manager.is_unlocked (crypto w) = false →
  app.handle req w = ([], w, Raise (HTTPException 401 [Lit "Vault is locked"])).
Proof.
  intros Hreq Hl. destruct req; try discriminate; simpl;
    by apply guarded_locked.
Qed.
End basics.

Section decryption.
Context `{Primitives}.

Lemma decrypt_bytes_world c nonce ct w :
  world_of (crypto_manager.decrypt_bytes c nonce ct w) = w.
Proof.
  unfold crypto_manager.decrypt_bytes, crypto_manager.AESGCM, world_of.
  destruct (truthy_bytes _); simpl; [|done].
  unfold_monad.
  destruct (_ || _)%bool; simpl; [|done].
  by destruct (aesgcm_decrypt _ _ _).
Qed.

Lemma decrypt_world c nonce ct w :
  world_of (crypto_manager.decrypt c nonce ct w) = w.
Proof.
  unfold crypto_manager.decrypt, world_of. unfold_monad.
  pose proof (decrypt_bytes_world c nonce ct w) as Hw. unfold world_of in Hw.
  destruct (crypto_manager.decrypt_bytes c nonce ct w) as [[t w1] [plaintext|e]];
    simpl in *; subst; [|done].
  by destruct (str_decode plaintext).
Qed.

Lemma attempt_eq w row :
  attempt w row = (trace_of (attempt w row), w, result_of (attempt w row)).
Proof.
  pose proof (decrypt_world (crypto w) (pw_nonce row) (pw_encrypted_data row) w) as Hw.
  unfold attempt, trace_of, result_of, world_of in *.
  destruct (crypto_manager.decrypt _ _ _ _) as [[t w1] r]. simpl in *. by subst.
Qed.

Lemma call_decrypt w row :
  app.call (λ c, crypto_manager.decrypt c (pw_nonce row) (pw_encrypted_data row)) w
  = attempt w row.
Proof.
  unfold app.call, attempt. unfold_monad. simpl.
  destruct (crypto_manager.decrypt _ _ _ _) as [[t w1] r]. by destruct r.
Qed.

Lemma truthy_32 (key : bytes) : length key = 32%nat → truthy_bytes (Some key) = true.
Proof. by destruct key. Qed.

Lemma AESGCM_32 key w : length key = 32%nat → crypto_manager.AESGCM key w = ([], w, Ok key).
Proof. intros Hl. unfold crypto_manager.AESGCM. by rewrite Hl. Qed.

(** The code's part of fail-closed decryption: when AES-GCM rejects the
    nonce and ciphertext under the live key, [decrypt_bytes] raises and
    hands out no plaintext. *)
Lemma decrypt_bytes_fails_closed c key nonce ct w :
  master_key c = Some key → length key = 32%nat →
  aesgcm_decrypt key nonce ct = None →
  crypto_manager.decrypt_bytes c nonce ct w = ([AeadDecrypt nonce ct], w, Raise InvalidTag).
Proof.
  intros Hk Hl Hd. unfold crypto_manager.decrypt_bytes.
  rewrite Hk, (truthy_32 _ Hl). simpl.
  unfold mbind, M_bind. unfold bind at 1. rewrite (AESGCM_32 _ _ Hl).
  unfold_monad. simpl. by rewrite Hd.
Qed.

(** The loop of [list_passwords]. *)
Lemma list_loop rows results w :
  for_fold (λ results row,
      try_except
        (decrypted_pw ← app.call (λ c, crypto_manager.decrypt c (pw_nonce row) (pw_encrypted_data row));
         ret (results ++ [ {| resp_id := pw_id row; resp_service := pw_service row;
                              resp_username := pw_username row;
                              resp_password := decrypted_pw |} ]))
        (λ e, emit (Stdout [Lit "Failed to decrypt ID "; Int (pw_id row); Lit ": "; Exc e]);;
              ret results))
    rows results w
  = (flat_map (λ row, trace_of (attempt w row) ++
                 match result_of (attempt w row) with
                 | Ok _ => []
                 | Raise e => [Stdout [Lit "Failed to decrypt ID "; Int (pw_id row);
                                       Lit ": "; Exc e]]
                 end) rows,
     w,
     Ok (results ++
         omap (λ row, match result_of (attempt w row) with
                      | Ok pt => Some {| resp_id := pw_id row; resp_service := pw_service row;
                                         resp_username := pw_username row;
                                         resp_password := pt |}
                      | Raise _ => None
                      end) rows)).
Proof.
  revert results. induction rows as [|row rows IH]; intros results; simpl.
  - unfold ret. by rewrite app_nil_r.
  - unfold mbind, M_bind. unfold bind at 1. unfold try_except at 1. unfold bind at 1.
    rewrite call_decrypt, (attempt_eq w row).
    destruct (result_of (attempt w row)) as [pt|e]; simpl.
    + rewrite IH. unfold trace_of at 1. simpl. rewrite !app_nil_r.
      by rewrite <- app_assoc.
    + rewrite IH. unfold trace_of at 1. simpl. by rewrite <- !app_assoc.
Qed.

(** C7. On an unlocked vault [list_passwords] never fails: it returns, in
    row order, each stored secret that decrypts, with its plaintext; a row
    whose decryption raises is left out of the result, and a line with its
    id goes to the standard output ("Failed to decrypt ID <id>: ...").
    Nothing in the world changes. *)
Theorem list_tolerates_decryption_failure w :
  crypto_manager.is_unlocked (crypto w) = true →
  app.list_passwords w =
    (DbRead TPasswords ::
       flat_map (λ row, trace_of (attempt w row) ++
                   match result_of (attempt w row) with
                   | Ok _ => []
                   | Raise e => [Stdout [Lit "Failed to decrypt ID "; Int (pw_id row);
                                         Lit ": "; Exc e]]
                   end) (passwords (db w)),
     w,
     Ok (PasswordList
           (omap (λ row, match result_of (attempt w row) with
                         | Ok pt => Some {| resp_id := pw_id row;
                                            resp_service := pw_service row;
                                            resp_username := pw_username row;
                                            resp_password := pt |}
                         | Raise _ => None
                         end) (passwords (db w))))).
Proof.
  intros Hu. unfold app.list_passwords.
  unfold bind at 1. rewrite (get_crypto_unlocked _ Hu).
  unfold db_manager.get_passwords, db_manager.query.
  unfold mbind, M_bind. unfold bind at 1. unfold bind at 1. unfold emit, gets.
  unfold bind at 1. rewrite list_loop. simpl. by rewrite app_nil_r.
Qed.
End decryption.

Section encryption.
Context `{Primitives}.

Lemma max_rowid_nonneg ids : 0 ≤ max_rowid ids.
Proof. induction ids as [|i ids IH]; simpl; lia. Qed.

Lemma next_rowid_positive seq ids : 1 ≤ next_rowid seq ids.
Proof. unfold next_rowid. pose proof (max_rowid_nonneg ids). lia. Qed.

Lemma max_rowid_bound ids i : i ∈ ids → i ≤ max_rowid ids.
Proof.
  induction ids as [|j ids IH]; [by intros ?%elem_of_nil|].
  intros [->|Hin]%elem_of_cons; simpl; [lia|]. specialize (IH Hin). lia.
Qed.

Lemma encrypt_bytes_spec c key plaintext w :
  master_key c = Some key → length key = 32%nat →
  let nonce := map (entropy w) (seq (drawn w) 12) in
  crypto_manager.encrypt_bytes c plaintext w =
    ([Urandom 12; AeadEncrypt nonce plaintext], set_drawn (drawn w + 12)%nat w,
     Ok {| enc_nonce := nonce; enc_ciphertext := aesgcm_encrypt key nonce plaintext |}).
Proof.
  intros Hk Hl nonce. unfold crypto_manager.encrypt_bytes.
  rewrite Hk, (truthy_32 _ Hl). cbn -[seq].
  unfold mbind, M_bind. unfold bind at 1. rewrite (AESGCM_32 _ _ Hl).
  unfold os_urandom. unfold_monad. by cbn -[seq].
Qed.

Lemma decrypt_bytes_spec c key nonce ct w :
  master_key c = Some key → length key = 32%nat →
  crypto_manager.decrypt_bytes c nonce ct w =
    ([AeadDecrypt nonce ct], w,
     match aesgcm_decrypt key nonce ct with
     | Some plaintext => Ok plaintext
     | None => Raise InvalidTag
     end).
Proof.
  intros Hk Hl. unfold crypto_manager.decrypt_bytes.
  rewrite Hk, (truthy_32 _ Hl). simpl.
  unfold mbind, M_bind. unfold bind at 1. rewrite (AESGCM_32 _ _ Hl).
  unfold_monad. simpl. by destruct (aesgcm_decrypt _ _ _).
Qed.

(** C4. With a 32-byte key [K] as the live key, [encrypt_bytes] of any
    payload [P] returns a 12-byte nonce from the entropy pool and the
    AES-GCM ciphertext with its tag, and [decrypt_bytes] of that pair under
    the same key returns exactly [P], in whatever world it is called. *)
Theorem encrypt_decrypt_round_trip `{!AeadLaws} (K P : bytes) w :
  length K = 32%nat →
  let c := {| master_key := Some K |} in
  ∃ t w1 enc,
    crypto_manager.encrypt_bytes c P w = (t, w1, Ok enc) ∧
    length (enc_nonce enc) = 12%nat ∧
    ∀ w2, crypto_manager.decrypt_bytes c (enc_nonce enc) (enc_ciphertext enc) w2 =
            ([AeadDecrypt (enc_nonce enc) (enc_ciphertext enc)], w2, Ok P).
Proof.
  intros Hl c. eexists _, _, _. split; [by apply (encrypt_bytes_spec c K)|].
  assert (Hn : length (map (entropy w) (seq (drawn w) 12)) = 12%nat)
    by by rewrite length_map, length_seq.
  split; [exact Hn|]. intros w2.
  rewrite (decrypt_bytes_spec c K) by done. cbn -[seq].
  by rewrite aead_round_trip.
Qed.

(** C8, as the code has it. [add_password] on an unlocked vault stores the
    encrypted secret in a new row whose id the store generates (at least 1),
    and answers with the id 0 whatever that id is: the id in the response
    is never the id of the row. *)
Theorem add_password_returns_placeholder entry key w :
  master_key (crypto w) = Some key → length key = 32%nat →
  ∃ t w' row item,
    app.add_password entry w = (t, w', Ok (PasswordItem item)) ∧
    passwords (db w') = passwords (db w) ++ [row] ∧
    pw_id row = next_rowid (passwords_seq (db w)) (map pw_id (passwords (db w))) ∧
    pw_service row = entry_service entry ∧ pw_username row = entry_username entry ∧
    resp_id item = 0 ∧ resp_id item ≠ pw_id row.
Proof.
  intros Hk Hl. unfold app.add_password.
  unfold bind at 1. rewrite get_crypto_unlocked
    by (unfold crypto_manager.is_unlocked; by rewrite Hk).
  unfold mbind, M_bind. unfold bind at 1.
  assert (Hcall : app.call (λ c, crypto_manager.encrypt c (entry_password entry)) w
                  = crypto_manager.encrypt_bytes (crypto w) (str_encode (entry_password entry)) w).
  { unfold app.call, crypto_manager.encrypt. unfold_monad. simpl.
    destruct (crypto_manager.encrypt_bytes _ _ _) as [[t1 w1] r]. by destruct r. }
  rewrite Hcall, (encrypt_bytes_spec _ key) by done.
  unfold db_manager.store_password, db_manager.create_snapshot, db_manager.execute.
  unfold_monad. cbn -[seq next_rowid].
  eexists _, _, _, _. split; [reflexivity|]. cbn -[seq next_rowid].
  repeat split; try reflexivity. cbn -[seq next_rowid].
  pose proof (next_rowid_positive (passwords_seq (db w)) (map pw_id (passwords (db w)))). lia.
Qed.
End encryption.

Section rotation_loops.
Context `{Primitives}.

Lemma attempt_read_only w row : forallb (negb ∘ is_write) (trace_of (attempt w row)) = true.
Proof.
  unfold attempt, crypto_manager.decrypt, crypto_manager.decrypt_bytes,
    crypto_manager.AESGCM, trace_of.
  destruct (truthy_bytes _); simpl; [|done].
  unfold_monad. destruct (_ || _)%bool; simpl; [|done].
  destruct (aesgcm_decrypt _ _ _) as [plaintext|]; simpl; [|done].
  by destruct (str_decode plaintext).
Qed.

Lemma decrypts_dec w row : decrypts w row ∨ ¬ decrypts w row.
Proof.
  unfold decrypts. destruct (result_of (attempt w row)) as [pt|e].
  - left. by exists pt.
  - right. by intros [pt Hpt].
Qed.

(** One pass through the body of the first loop of [change_master_password]. *)
Lemma rotation_decrypt_body decrypted_entries row w :
  try_except
    (pt ← app.call (λ c, crypto_manager.decrypt c (pw_nonce row) (pw_encrypted_data row));
     ret (decrypted_entries ++ [(pw_id row, pt)]))
    (λ e, raise (HTTPException 500
            [Lit "Failed to decrypt password ID "; Int (pw_id row);
             Lit ". Aborting rotation."])) w
  = (trace_of (attempt w row), w,
     match result_of (attempt w row) with
     | Ok pt => Ok (decrypted_entries ++ [(pw_id row, pt)])
     | Raise _ => Raise (HTTPException 500
                    [Lit "Failed to decrypt password ID "; Int (pw_id row);
                     Lit ". Aborting rotation."])
     end).
Proof.
  unfold mbind, M_bind, try_except. unfold bind.
  rewrite call_decrypt, (attempt_eq w row).
  unfold trace_of at 3. unfold result_of at 2. simpl.
  destruct (result_of (attempt w row)); simpl; by rewrite app_nil_r.
Qed.

(** A loop with such a body goes through, or stops at the first row that
    does not decrypt; either way the world is as before. *)
Lemma rotation_decrypt_loop (body : list (Z * string) → PasswordRow → M (list (Z * string)))
    rows decrypted_entries w :
  (∀ acc row, body acc row w =
     (trace_of (attempt w row), w,
      match result_of (attempt w row) with
      | Ok pt => Ok (acc ++ [(pw_id row, pt)])
      | Raise _ => Raise (HTTPException 500
                     [Lit "Failed to decrypt password ID "; Int (pw_id row);
                      Lit ". Aborting rotation."])
      end)) →
  (Forall (decrypts w) rows ∧
   for_fold body rows decrypted_entries w
   = (flat_map (λ row, trace_of (attempt w row)) rows, w,
      Ok (decrypted_entries ++ plaintexts w rows)))
  ∨ (∃ t row, row ∈ rows ∧ ¬ decrypts w row ∧ forallb (negb ∘ is_write) t = true ∧
     for_fold body rows decrypted_entries w
     = (t, w, Raise (HTTPException 500
                [Lit "Failed to decrypt password ID "; Int (pw_id row);
                 Lit ". Aborting rotation."]))).
Proof.
  intros Hbody. revert decrypted_entries.
  induction rows as [|row rows IH]; intros acc.
  - left. split; [constructor|]. simpl. unfold ret, plaintexts. simpl. by rewrite app_nil_r.
  - cbn [for_fold]. unfold mbind, M_bind, bind. rewrite Hbody.
    pose proof (attempt_read_only w row) as Hro.
    destruct (result_of (attempt w row)) as [pt|e] eqn:Hr.
    + destruct (IH (acc ++ [(pw_id row, pt)])) as [[Hall Hrun]|(t & bad & Hin & Hbad & Ht & Hrun)].
      * left. split.
        { constructor; [by exists pt | done]. }
        rewrite Hrun. unfold plaintexts. simpl. rewrite Hr. simpl.
        by rewrite <- app_assoc.
      * right. exists (trace_of (attempt w row) ++ t), bad.
        split; [by apply list_elem_of_further|]. split; [done|]. split.
        { by rewrite forallb_app, Hro, Ht. }
        by rewrite Hrun.
    + right. exists (trace_of (attempt w row)), row.
      split; [apply list_elem_of_here|]. split.
      { intros [pt Hpt]. congruence. }
      done.
Qed.

Lemma set_drawn_set_drawn a b w : set_drawn a (set_drawn b w) = set_drawn a w.
Proof. done. Qed.

Lemma set_drawn_same w : set_drawn (drawn w) w = w.
Proof. by destruct w. Qed.

(** One pass through the body of the second loop, under a key of 32 bytes. *)
Lemma rotation_encrypt_body re_encrypted_entries entry_id plaintext key w :
  length key = 32%nat →
  (enc ← crypto_manager.encrypt {| master_key := Some key |} plaintext;
   ret (re_encrypted_entries ++
        [ {| db_manager.upd_id := entry_id;
             db_manager.upd_encrypted_data := enc_ciphertext enc;
             db_manager.upd_nonce := enc_nonce enc |} ])) w
  = ([Urandom 12; AeadEncrypt (map (entropy w) (seq (drawn w) 12)) (str_encode plaintext)],
     set_drawn (drawn w + 12)%nat w,
     Ok (re_encrypted_entries ++ reencrypt key (entropy w) (drawn w) [(entry_id, plaintext)])).
Proof.
  intros Hl. unfold mbind, M_bind, bind, crypto_manager.encrypt.
  by rewrite (encrypt_bytes_spec _ key).
Qed.

Lemma rotation_encrypt_loop
    (body : list db_manager.UpdatedEntry → Z * string → M (list db_manager.UpdatedEntry))
    entries re_encrypted_entries key w :
  (∀ acc entry_id plaintext w, body acc (entry_id, plaintext) w =
     ([Urandom 12; AeadEncrypt (map (entropy w) (seq (drawn w) 12)) (str_encode plaintext)],
      set_drawn (drawn w + 12)%nat w,
      Ok (acc ++ reencrypt key (entropy w) (drawn w) [(entry_id, plaintext)]))) →
  ∃ t,
    for_fold body entries re_encrypted_entries w
    = (t, set_drawn (drawn w + 12 * length entries)%nat w,
       Ok (re_encrypted_entries ++ reencrypt key (entropy w) (drawn w) entries)).
Proof.
  intros Hbody. revert re_encrypted_entries w.
  induction entries as [|[entry_id plaintext] entries IH]; intros acc w.
  - exists []. cbn [for_fold reencrypt length]. unfold ret.
    replace (drawn w + 12 * 0)%nat with (drawn w) by lia.
    by rewrite set_drawn_same, app_nil_r.
  - cbn [for_fold]. unfold mbind, M_bind, bind. rewrite Hbody.
    destruct (IH (acc ++ reencrypt key (entropy w) (drawn w) [(entry_id, plaintext)])
                 (set_drawn (drawn w + 12)%nat w)) as (t & Hrun).
    rewrite Hrun. eexists. cbn [length reencrypt].
    rewrite set_drawn_set_drawn, <- app_assoc.
    replace (drawn (set_drawn (drawn w + 12)%nat w) + 12 * length entries)%nat
      with (drawn w + 12 * S (length entries))%nat by (simpl; lia).
    reflexivity.
Qed.
End rotation_loops.

Section rotation.
Context `{Primitives} `{!KdfLaws}.

Lemma get_master_config_run w :
  ∃ r, db_manager.get_master_config w = ([DbRead TConfig; DbRead TConfig], w, r) ∧
       match r with
       | Ok (salt, stored_hash) =>
           salt = config (db w) !! "salt" ∧
           match stored_hash with
           | Some h => stored_verifier (db w) h
           | None => config (db w) !! "password_hash" = None
           end
       | Raise e => e = UnicodeDecodeError
       end.
Proof.
  unfold db_manager.get_master_config, db_manager.query. unfold_monad. simpl.
  destruct (config (db w) !! "password_hash") as [blob|] eqn:Hb; simpl.
  - destruct (str_decode blob) as [h|] eqn:Hd; simpl.
    + eexists. split; [done|]. split; [done|]. by exists blob.
    + eexists. split; done.
  - eexists. split; done.
Qed.

Lemma verify_guard stored_hash password (detail : list fragment) w :
  try_except (crypto_manager.ph_verify_call stored_hash password)
             (λ _, raise (HTTPException 401 detail)) w
  = ([VerifyCall stored_hash password], w,
     match stored_hash with
     | Some h => if ph_verify h password then Ok tt else Raise (HTTPException 401 detail)
     | None => Raise (HTTPException 401 detail)
     end).
Proof.
  unfold crypto_manager.ph_verify_call. unfold_monad. simpl.
  destruct stored_hash as [h|]; [|done]. by destruct (ph_verify h password).
Qed.

(** Every way [change_master_password] can end. It fails with the world
    untouched (locked vault, undecodable verifier, rejected current
    password, a row that does not decrypt), or it goes through and leaves
    the world [rotated]. *)
Lemma change_master_password_cases current_password new_password w :
  ∃ t w' r,
    app.change_master_password current_password new_password w = (t, w', r) ∧
    ((w' = w ∧ forallb (negb ∘ is_write) t = true ∧
      ∃ e, r = Raise e ∧
        (crypto_manager.is_unlocked (crypto w) = false
         ∨ result_of (db_manager.get_master_config w) = Raise UnicodeDecodeError
         ∨ (∃ salt stored_hash,
              result_of (db_manager.get_master_config w) = Ok (salt, stored_hash) ∧
              ∀ h, stored_hash = Some h → ph_verify h current_password = false)
         ∨ (∃ row, row ∈ passwords (db w) ∧ ¬ decrypts w row ∧
              e = HTTPException 500 [Lit "Failed to decrypt password ID "; Int (pw_id row);
                                     Lit ". Aborting rotation."])))
     ∨ (∃ h new_key,
          w' = rotated w new_password new_key ∧
          r = Ok (Message "Master password changed successfully") ∧
          crypto_manager.is_unlocked (crypto w) = true ∧
          stored_verifier (db w) h ∧ ph_verify h current_password = true ∧
          Forall (decrypts w) (passwords (db w)) ∧
          hash_secret_raw (str_encode new_password) (map (entropy w) (seq (drawn w) 16))
          = Some new_key ∧
          length new_key = 32%nat)).
Proof.
  destruct (get_master_config_run w) as (r0 & Hcfg & Hr).
  assert (Hres : result_of (db_manager.get_master_config w) = r0) by by rewrite Hcfg.
  rewrite Hres. clear Hres.
  unfold app.change_master_password.
  destruct (crypto_manager.is_unlocked (crypto w)) eqn:Hu.
  2: { rewrite guarded_locked by done. eexists _, _, _. split; [reflexivity|]. left.
       split; [done|]. split; [done|]. eexists. split; [done|]. by left. }
  unfold bind at 1. rewrite (get_crypto_unlocked _ Hu).
  unfold mbind, M_bind. unfold bind at 1. rewrite Hcfg.
  destruct r0 as [[salt stored_hash]|e].
  2: { subst e. eexists _, _, _. split; [reflexivity|]. left.
       split; [done|]. split; [done|]. eexists. split; [done|]. right. by left. }
  destruct Hr as [-> Hh].
  cbn match. unfold bind at 1. rewrite verify_guard.
  destruct stored_hash as [h|].
  2: { eexists _, _, _. split; [reflexivity|]. left.
       split; [done|]. split; [done|]. eexists. split; [done|]. right. right. left.
       exists (config (db w) !! "salt"), None. by split. }
  destruct (ph_verify h current_password) eqn:Hv.
  2: { eexists _, _, _. split; [reflexivity|]. left.
       split; [done|]. split; [done|]. eexists. split; [done|]. right. right. left.
       exists (config (db w) !! "salt"), (Some h). split; [done|].
       by intros ? [= <-]. }
  unfold db_manager.get_passwords, db_manager.query.
  unfold bind at 1. unfold bind at 1. unfold emit at 1. unfold gets at 1.
  unfold bind at 1.
  match goal with
  | |- context [for_fold ?body (passwords (db w)) [] w] =>
      destruct (rotation_decrypt_loop body (passwords (db w)) [] w
                  (λ acc row, rotation_decrypt_body acc row w))
        as [[Hall Hloop]|(t & row & Hin & Hbad & Ht & Hloop)]; rewrite Hloop
  end.
  2: { eexists _, _, _. split; [reflexivity|]. left.
       split; [done|]. split.
       { simpl. by rewrite Ht. }
       eexists. split; [done|]. right. right. right. by exists row. }
  destruct (kdf_total (str_encode new_password) (map (entropy w) (seq (drawn w) 16)))
    as [new_key Hk].
  { by rewrite length_map, length_seq. }
  pose proof (kdf_length _ _ _ Hk) as Hl.
  unfold crypto_manager.generate_salt, crypto_manager.ph_hash_call, os_urandom,
    crypto_manager.unlock, crypto_manager.derive_key.
  unfold_monad. cbn -[seq for_fold plaintexts]. rewrite Hk. cbn -[seq for_fold plaintexts].
  match goal with
  | |- context [for_fold ?body ?entries [] ?w1] =>
      destruct (rotation_encrypt_loop body entries [] new_key w1
                  (λ acc entry_id plaintext w2,
                     rotation_encrypt_body acc entry_id plaintext new_key w2 Hl))
        as (t & Hloop2); rewrite Hloop2
  end.
  unfold db_manager.batch_update_passwords_and_config, db_manager.create_snapshot,
    db_manager.execute, app.call_mut, crypto_manager.unlock, crypto_manager.derive_key.
  unfold_monad. cbn -[seq reencrypt plaintexts db_manager.executemany_update Nat.mul].
  eexists _, _, _. split; [reflexivity|]. right. exists h, new_key.
  split; [|done].
  replace (drawn w + 16 + 16)%nat with (drawn w + 32)%nat by lia.
  unfold rotated, set_crypto, set_db, set_snapshots, set_drawn, set_config,
    db_manager.executemany_update, set_passwords.
  cbn -[seq reencrypt plaintexts Nat.mul foldl]. done.
Qed.
End rotation.

Section rotation_store.
Context `{Primitives}.

Lemma decrypt_spec c key nonce ct w :
  master_key c = Some key → length key = 32%nat →
  crypto_manager.decrypt c nonce ct w =
    ([AeadDecrypt nonce ct], w,
     match aesgcm_decrypt key nonce ct with
     | Some plaintext =>
         match str_decode plaintext with
         | Some s => Ok s
         | None => Raise UnicodeDecodeError
         end
     | None => Raise InvalidTag
     end).
Proof.
  intros Hk Hl. unfold crypto_manager.decrypt, mbind, M_bind, bind.
  rewrite (decrypt_bytes_spec c key) by done.
  destruct (aesgcm_decrypt key nonce ct) as [plaintext|]; [|done].
  destruct (str_decode plaintext); simpl; by rewrite ?app_nil_r.
Qed.

Lemma plaintexts_rows w rows :
  Forall (decrypts w) rows →
  Forall2 (λ row entry, entry.1 = pw_id row ∧ result_of (attempt w row) = Ok entry.2)
          rows (plaintexts w rows).
Proof.
  induction 1 as [|row rows [pt Hpt] _ IH]; [constructor|].
  unfold plaintexts. simpl. rewrite Hpt. simpl. by constructor.
Qed.

Lemma reencrypt_entries key e pos entries :
  Forall2 (λ entry u,
      db_manager.upd_id u = entry.1 ∧ length (db_manager.upd_nonce u) = 12%nat ∧
      db_manager.upd_encrypted_data u
      = aesgcm_encrypt key (db_manager.upd_nonce u) (str_encode entry.2))
    entries (reencrypt key e pos entries).
Proof.
  revert pos. induction entries as [|[entry_id plaintext] entries IH]; intros pos.
  - constructor.
  - cbn [reencrypt]. constructor; [|apply IH]. cbn -[seq].
    by rewrite length_map, length_seq.
Qed.

Lemma update_ciphertext_fresh ct nonce rowid rows :
  rowid ∉ map pw_id rows → db_manager.update_ciphertext ct nonce rowid rows = rows.
Proof.
  induction rows as [|row rows IH]; [done|]. simpl. intros Hnotin.
  rewrite decide_False.
  - f_equal. apply IH. intros Hin. apply Hnotin. by apply list_elem_of_further.
  - intros Heq. apply Hnotin. rewrite Heq. apply list_elem_of_here.
Qed.

Lemma update_ciphertext_app ct nonce rowid rows1 rows2 :
  db_manager.update_ciphertext ct nonce rowid (rows1 ++ rows2)
  = db_manager.update_ciphertext ct nonce rowid rows1
    ++ db_manager.update_ciphertext ct nonce rowid rows2.
Proof. unfold db_manager.update_ciphertext. apply map_app. Qed.

(** [executemany] with one update per row, in row order, under the primary
    key: row [i] takes the ciphertext and nonce of update [i]. *)
Lemma executemany_rows before rows updates :
  NoDup (map pw_id (before ++ rows)) →
  Forall2 (λ row u, db_manager.upd_id u = pw_id row) rows updates →
  foldl (λ rows '(encrypted_data, nonce, rowid),
           db_manager.update_ciphertext encrypted_data nonce rowid rows)
        (before ++ rows)
        (map (λ entry, (db_manager.upd_encrypted_data entry, db_manager.upd_nonce entry,
                        db_manager.upd_id entry)) updates)
  = before ++ zip_with apply_update rows updates.
Proof.
  intros Hnodup Hids. revert before Hnodup.
  induction Hids as [|row u rows updates Hid _ IH]; intros before Hnodup; [done|].
  cbn [map foldl zip_with].
  rewrite map_app in Hnodup. cbn [map] in Hnodup.
  apply NoDup_app in Hnodup as (Hnd1 & Hdisj & Hnd2).
  apply NoDup_cons in Hnd2 as [Hnotin Hnd2].
  rewrite update_ciphertext_app, Hid.
  rewrite (update_ciphertext_fresh _ _ (pw_id row) before).
  2: { intros Hin. apply (Hdisj _ Hin). apply list_elem_of_here. }
  cbn [db_manager.update_ciphertext map]. rewrite decide_True by done.
  fold (db_manager.update_ciphertext (db_manager.upd_encrypted_data u)
          (db_manager.upd_nonce u) (pw_id row) rows).
  rewrite (update_ciphertext_fresh _ _ (pw_id row) rows) by done.
  change ({| pw_id := pw_id row; pw_service := pw_service row;
             pw_username := pw_username row;
             pw_encrypted_data := db_manager.upd_encrypted_data u;
             pw_nonce := db_manager.upd_nonce u |}) with (apply_update row u).
  rewrite (cons_middle (apply_update row u)), app_assoc. rewrite IH.
  - by rewrite <- app_assoc.
  - rewrite !map_app. cbn [map]. apply NoDup_app. split; [|split].
    + apply NoDup_app. split; [done|]. split; [|apply NoDup_singleton].
      intros x Hx ->%list_elem_of_singleton. apply (Hdisj _ Hx). apply list_elem_of_here.
    + intros x [Hx| ->%list_elem_of_singleton]%elem_of_app Hin; [|done].
      apply (Hdisj _ Hx). by apply list_elem_of_further.
    + done.
Qed.

Lemma Forall2_zip_with_r {A B} (P : A → A → Prop) (f : A → B → A) l k :
  Forall2 (λ a b, P a (f a b)) l k → Forall2 P l (zip_with f l k).
Proof. induction 1; simpl; by constructor. Qed.

Lemma Forall2_compose {A B C} (P : A → B → Prop) (Q : B → C → Prop) (R : A → C → Prop)
    l k m :
  (∀ a b c, P a b → Q b c → R a c) → Forall2 P l k → Forall2 Q k m → Forall2 R l m.
Proof.
  intros HPQ HP. revert m. induction HP as [|a b l k Hab _ IH]; intros m HQ.
  - inversion HQ. constructor.
  - inversion HQ as [|? c ? m' Hbc HQ']; subst. constructor; [by eapply HPQ|by apply IH].
Qed.

(** The secrets of a rotated world against those before: same identity,
    the ciphertext of the old plaintext under the new key and a 12-byte
    nonce. *)
Lemma rotated_passwords w new_password new_key :
  NoDup (map pw_id (passwords (db w))) →
  Forall (decrypts w) (passwords (db w)) →
  Forall2 (λ row row',
      pw_id row' = pw_id row ∧ pw_service row' = pw_service row ∧
      pw_username row' = pw_username row ∧ length (pw_nonce row') = 12%nat ∧
      ∃ pt, result_of (attempt w row) = Ok pt ∧
            pw_encrypted_data row' = aesgcm_encrypt new_key (pw_nonce row') (str_encode pt))
    (passwords (db w)) (passwords (db (rotated w new_password new_key))).
Proof.
  intros Hnodup Hall. unfold rotated. cbn -[seq plaintexts reencrypt foldl].
  pose proof (plaintexts_rows w _ Hall) as Hpt.
  pose proof (reencrypt_entries new_key (entropy w) (drawn w + 32)%nat
                (plaintexts w (passwords (db w)))) as Hre.
  rewrite (executemany_rows [] (passwords (db w))).
  - apply Forall2_zip_with_r.
    eapply Forall2_compose; [|exact Hpt|exact Hre].
    intros row [entry_id pt] u [Hid Hr] (Hu & Hn & Hct). simpl in *.
    repeat split; try done. by exists pt.
  - done.
  - eapply Forall2_compose; [|exact Hpt|exact Hre].
    intros row entry u [Hid _] (Hu & _). congruence.
Qed.
End rotation_store.

Section state_machine.
Context `{Primitives}.

(** What [unlock_vault] does on an initialized vault, case by case. *)
Lemma unlock_vault_spec w password salt h :
  has_master_config (db w) salt h →
  app.unlock_vault password w =
    if ph_verify h password then
      match hash_secret_raw (str_encode password) salt with
      | Some key =>
          ([DbRead TConfig; DbRead TConfig; VerifyCall (Some h) password;
            KdfCall (str_encode password) salt],
           set_crypto {| master_key := Some key |} w, Ok (Message "Vault unlocked"))
      | None =>
          ([DbRead TConfig; DbRead TConfig; VerifyCall (Some h) password;
            KdfCall (str_encode password) salt;
            Stdout [Lit "Key derivation failed: "; Exc HashingError]],
           w, Raise (HTTPException 500 [Lit "Key derivation failed"]))
      end
    else
      ([DbRead TConfig; DbRead TConfig; VerifyCall (Some h) password], w,
       Raise (HTTPException 401 [Lit "Invalid password"])).
Proof.
  intros Hc. unfold app.unlock_vault.
  unfold mbind, M_bind. unfold bind at 1. rewrite (get_master_config_spec _ _ _ Hc).
  destruct Hc as (Hs & Hl & blob & Hb & Hd & Hne).
  destruct salt as [|b salt]; [discriminate|].
  destruct h as [|a h]; [done|].
  simpl. unfold crypto_manager.ph_verify_call. unfold_monad. simpl.
  destruct (ph_verify _ _); simpl; [|done].
  unfold app.call_mut, crypto_manager.unlock, crypto_manager.derive_key.
  unfold_monad. simpl.
  destruct (hash_secret_raw _ _); simpl; [done|].
  by rewrite set_crypto_same.
Qed.


(** C9. After [lock] the vault reports locked, and every request to a
    route guarded by [get_crypto] is answered with the 401 "Vault is
    locked" (the VaultLockedError): no SQL statement runs and nothing is
    decrypted (the trace is empty), and the world stays as [lock] left it,
    so the same holds for each request after it. *)
Theorem locked_guard w reqs :
  Forall (λ req, app.requires_unlocked req = true) reqs →
  let w' := world_of (app.lock_vault w) in
  crypto_manager.is_unlocked (crypto w') = false ∧
  serve reqs w' =
    (map (λ _, ([], Raise (HTTPException 401 [Lit "Vault is locked"]))) reqs, w').
Proof.
  intros Hreqs w'. assert (Hl : crypto_manager.is_unlocked (crypto w') = false) by done.
  split; [done|]. clearbody w'.
  induction Hreqs as [|req reqs Hreq _ IH]; simpl; [done|].
  rewrite (handle_locked _ _ Hreq Hl). by rewrite IH.
Qed.
End state_machine.

Section initialization.
Context `{Primitives} `{!KdfLaws}.

(** C10. [init] on a vault that holds a MasterConfig is refused with the
    400 "Vault already initialized" and changes nothing: store, snapshots,
    key state and entropy pool are as before. On a vault without one it
    stores a fresh 16-byte salt and the verifier hash of the password,
    leaves secrets and attachments alone, and leaves the vault unlocked
    with the key derived from the password and that salt. *)
Theorem init_only_once w password :
  (∀ salt h, has_master_config (db w) salt h →
     app.initialize_vault password w =
       ([DbRead TConfig; DbRead TConfig], w,
        Raise (HTTPException 400 [Lit "Vault already initialized"])))
  ∧ (no_master_config (db w) →
     let salt := map (entropy w) (seq (drawn w) 16) in
     let r := map (entropy w) (seq (drawn w + 16)%nat 16) in
     ∃ t w' key,
       app.initialize_vault password w =
         (t, w', Ok (Message "Vault initialized and unlocked")) ∧
       config (db w') =
         <["password_hash" := str_encode (ph_hash r password)]>
           (<["salt" := salt]> (config (db w))) ∧
       passwords (db w') = passwords (db w) ∧
       attachments (db w') = attachments (db w) ∧
       hash_secret_raw (str_encode password) salt = Some key ∧
       crypto w' = {| master_key := Some key |} ∧
       crypto_manager.is_unlocked (crypto w') = true).
Proof.
  split.
  - intros salt h Hc. unfold app.initialize_vault.
    unfold mbind, M_bind. unfold bind at 1. rewrite (get_master_config_spec _ _ _ Hc).
    destruct Hc as (_ & Hl & _). destruct salt; [discriminate|]. done.
  - intros Hn salt r. unfold app.initialize_vault.
    unfold mbind, M_bind. unfold bind at 1. rewrite (get_master_config_none _ Hn).
    destruct (kdf_total (str_encode password) salt) as [key Hk].
    { unfold salt. by rewrite length_map, length_seq. }
    unfold salt in Hk. cbn -[seq].
    unfold crypto_manager.generate_salt, crypto_manager.ph_hash_call, os_urandom,
      db_manager.set_master_config, db_manager.execute, app.call_mut,
      crypto_manager.unlock, crypto_manager.derive_key.
    unfold_monad. cbn -[seq]. rewrite Hk. cbn -[seq].
    eexists _, _, key. repeat split; try reflexivity. done.
Qed.
End initialization.

Section rotation_theorems.
Context `{Primitives} `{!KdfLaws}.

(** C1. Rotation on an unlocked vault with the right current password and a
    stored secret that does not decrypt under the live key: the request
    ends with the 500 "Failed to decrypt password ID <id>. Aborting
    rotation." (the RotationAbortedError) for such a row, before any write:
    the trace holds no write to the store, no snapshot and no draw of
    entropy, and the world is the one before the request: every record, the
    MasterConfig and the live key are as they were. [unlock] with the
    current password is then accepted as before. *)
Theorem rotation_atomicity w current_password new_password salt h :
  crypto_manager.is_unlocked (crypto w) = true →
  has_master_config (db w) salt h →
  ph_verify h current_password = true →
  Exists (λ row, ¬ decrypts w row) (passwords (db w)) →
  ∃ t row key,
    app.change_master_password current_password new_password w
    = (t, w, Raise (HTTPException 500
                      [Lit "Failed to decrypt password ID "; Int (pw_id row);
                       Lit ". Aborting rotation."])) ∧
    row ∈ passwords (db w) ∧ ¬ decrypts w row ∧
    forallb (negb ∘ is_write) t = true ∧
    hash_secret_raw (str_encode current_password) salt = Some key ∧
    app.unlock_vault current_password w
    = ([DbRead TConfig; DbRead TConfig; VerifyCall (Some h) current_password;
        KdfCall (str_encode current_password) salt],
       set_crypto {| master_key := Some key |} w, Ok (Message "Vault unlocked")).
Proof.
  intros Hu Hc Hv Hbad.
  destruct (kdf_total (str_encode current_password) salt) as [key Hk].
  { by destruct Hc as (_ & Hl & _). }
  destruct (change_master_password_cases current_password new_password w)
    as (t & w' & r & Hrun & [(-> & Ht & e & -> & Hcase)|(h' & new_key & _ & _ & _ & _ & _ & Hall & _)]).
  - rewrite (get_master_config_spec _ _ _ Hc) in Hcase. unfold result_of in Hcase.
    simpl in Hcase.
    destruct Hcase as [Hl|[Hd|[(salt' & sh & [= <- <-] & Hrej)|(row & Hin & Hrow & ->)]]].
    + congruence.
    + discriminate.
    + specialize (Hrej h eq_refl). congruence.
    + exists t, row, key. repeat split; try done.
      rewrite (unlock_vault_spec _ _ _ _ Hc), Hv, Hk. done.
  - exfalso. apply Exists_exists in Hbad as (row & Hin & Hrow).
    apply Hrow. rewrite Forall_forall in Hall. by apply Hall.
Qed.

(** C3, as the code has it. A rotation that goes through leaves the
    attachment table untouched, nonce and ciphertext included, while the
    live key becomes the one derived from the new password: a download
    after it opens each attachment, sealed under the old key, with the new
    key. *)
Theorem rotation_skips_attachments w current_password new_password t w' resp :
  app.change_master_password current_password new_password w = (t, w', Ok resp) →
  attachments (db w') = attachments (db w) ∧
  attachments_seq (db w') = attachments_seq (db w) ∧
  ∃ new_salt new_key,
    config (db w') !! "salt" = Some new_salt ∧
    hash_secret_raw (str_encode new_password) new_salt = Some new_key ∧
    crypto w' = {| master_key := Some new_key |} ∧
    ∀ attachment_id row,
      head (filter (λ r, att_id r = attachment_id) (attachments (db w))) = Some row →
      app.download_attachment attachment_id w'
      = ([DbRead TAttachments; AeadDecrypt (att_nonce row) (att_encrypted_data row)], w',
         match aesgcm_decrypt new_key (att_nonce row) (att_encrypted_data row) with
         | Some pt => Ok (FileDownload pt (att_filename row))
         | None => Raise (HTTPException 500 [Lit "Decryption failed: "; Exc InvalidTag])
         end).
Proof.
  intros Hrun.
  destruct (change_master_password_cases current_password new_password w)
    as (t1 & w1 & r & Hrun1 & Hcase).
  rewrite Hrun in Hrun1. injection Hrun1 as <- <- <-.
  destruct Hcase as [(_ & _ & e & [=] & _)|(h & new_key & -> & _ & _ & _ & _ & _ & Hk & Hl)].
  split; [done|]. split; [done|].
  exists (map (entropy w) (seq (drawn w) 16)), new_key.
  split. { unfold rotated. cbn -[seq]. by rewrite lookup_insert_ne, lookup_insert_eq. }
  split; [done|]. split; [done|].
  intros attachment_id row Hrow.
  unfold app.download_attachment. unfold bind at 1.
  rewrite get_crypto_unlocked by done.
  unfold db_manager.get_attachment, db_manager.query.
  unfold mbind, M_bind. unfold bind at 1. unfold bind at 1. unfold emit, gets.
  change (attachments (db (rotated w new_password new_key))) with (attachments (db w)).
  rewrite Hrow. unfold try_except, bind.
  assert (Hcall : ∀ w2, crypto w2 = {| master_key := Some new_key |} →
    app.call (λ c, crypto_manager.decrypt_bytes c (att_nonce row) (att_encrypted_data row)) w2
    = ([AeadDecrypt (att_nonce row) (att_encrypted_data row)], w2,
       match aesgcm_decrypt new_key (att_nonce row) (att_encrypted_data row) with
       | Some plaintext => Ok plaintext
       | None => Raise InvalidTag
       end)).
  { intros w2 Hc. unfold app.call. unfold_monad. simpl.
    rewrite (decrypt_bytes_spec _ new_key) by by rewrite ?Hc. by destruct (aesgcm_decrypt _ _ _). }
  rewrite Hcall by done.
  destruct (aesgcm_decrypt _ _ _); done.
Qed.
End rotation_theorems.

Section completeness.
Context `{Primitives} `{!KdfLaws} `{!AeadLaws} `{!HasherLaws} `{!CodecLaws}.

End completeness.

(** ** The primary keys are an invariant of the handlers *)

Section invariant.
Context `{Primitives}.

Lemma preserves_ret {A} I (a : A) : preserves I (ret a).
Proof. by intros w. Qed.

Lemma preserves_raise {A} I e : preserves I (@raise A e).
Proof. by intros w. Qed.

Lemma preserves_emit I ev : preserves I (emit ev).
Proof. by intros w. Qed.

Lemma preserves_gets {A} I (f : World → A) : preserves I (gets f).
Proof. by intros w. Qed.

Lemma preserves_modify I (f : World → World) :
  (∀ w, I w → I (f w)) → preserves I (modify f).
Proof. intros Hf w. apply Hf. Qed.

Lemma preserves_bind {A B} I (m : M A) (f : A → M B) :
  preserves I m → (∀ a, preserves I (f a)) → preserves I (bind m f).
Proof.
  intros Hm Hf w Hw. specialize (Hm w Hw). unfold bind, world_of in *.
  destruct (m w) as [[t1 w1] [a|e]]; simpl in *; [|done].
  specialize (Hf a w1 Hm). unfold world_of in Hf.
  by destruct (f a w1) as [[t2 w2] r].
Qed.

Lemma preserves_try_except {A} I (m : M A) (h : exn → M A) :
  preserves I m → (∀ e, preserves I (h e)) → preserves I (try_except m h).
Proof.
  intros Hm Hh w Hw. specialize (Hm w Hw). unfold try_except, world_of in *.
  destruct (m w) as [[t1 w1] [a|e]]; simpl in *; [done|].
  specialize (Hh e w1 Hm). unfold world_of in Hh.
  by destruct (h e w1) as [[t2 w2] r].
Qed.

Lemma preserves_for_fold {A S} I (body : S → A → M S) l acc :
  (∀ acc x, preserves I (body acc x)) → preserves I (for_fold body l acc).
Proof.
  intros Hbody. revert acc. induction l as [|x l IH]; intros acc; simpl.
  - apply preserves_ret.
  - apply preserves_bind; [apply Hbody | apply IH].
Qed.

Lemma preserves_os_urandom (I : Database → Prop) n : preserves (λ w, I (db w)) (os_urandom n).
Proof. by intros w. Qed.

Lemma preserves_execute (I : Database → Prop) t f :
  (∀ d, I d → I (f d)) → preserves (λ w, I (db w)) (db_manager.execute t f).
Proof. intros Hf w Hw. by apply Hf. Qed.

Lemma preserves_create_snapshot (I : Database → Prop) :
  preserves (λ w, I (db w)) db_manager.create_snapshot.
Proof. by intros w. Qed.

Create HintDb preserves.

#[local] Hint Resolve preserves_ret preserves_raise preserves_emit preserves_gets
  preserves_os_urandom preserves_create_snapshot : preserves.

(** Goes through a computation along its binds, handlers, loops and branches. *)
Ltac preserves_walk :=
  repeat match goal with
    | |- preserves _ (mbind _ _) => unfold mbind, M_bind
    | |- preserves _ (bind _ _) => apply preserves_bind; [|intros ?]
    | |- preserves _ (try_except _ _) => apply preserves_try_except; [|intros ?]
    | |- preserves _ (for_fold _ _ _) => apply preserves_for_fold; intros ? ?
    | |- preserves _ (if ?c then _ else _) => destruct c
    | |- preserves _ (match ?x with _ => _ end) => destruct x
    | |- preserves _ (modify (set_crypto _)) => by apply preserves_modify
    | |- preserves _ _ => solve [auto with preserves]
    end.

Lemma update_ciphertext_ids ct nonce rowid rows :
  map pw_id (db_manager.update_ciphertext ct nonce rowid rows) = map pw_id rows.
Proof.
  unfold db_manager.update_ciphertext. rewrite map_map. apply map_ext.
  intros row. by destruct (decide _).
Qed.

Lemma executemany_update_keys data d :
  primary_keys d → primary_keys (db_manager.executemany_update data d).
Proof.
  intros [Hp Ha]. split; [|done]. unfold db_manager.executemany_update. simpl.
  revert Hp. generalize (passwords d). induction data as [|[[ct nonce] rowid] data IH];
    intros rows Hrows; simpl; [done|].
  apply IH. by rewrite update_ciphertext_ids.
Qed.

Lemma next_rowid_fresh seq ids : next_rowid seq ids ∉ ids.
Proof.
  intros Hin%max_rowid_bound. unfold next_rowid in Hin. lia.
Qed.

Lemma insert_password_keys service username encrypted_data nonce d :
  primary_keys d → primary_keys (db_manager.insert_password service username encrypted_data nonce d).
Proof.
  intros [Hp Ha]. split; [|done]. unfold db_manager.insert_password. simpl.
  rewrite map_app. simpl. apply NoDup_app. split; [done|]. split; [|apply NoDup_singleton].
  intros x Hx ->%list_elem_of_singleton. by apply next_rowid_fresh in Hx.
Qed.

Lemma insert_attachment_keys password_id filename encrypted_data nonce d :
  primary_keys d →
  primary_keys (db_manager.insert_attachment password_id filename encrypted_data nonce d).
Proof.
  intros [Hp Ha]. split; [done|]. unfold db_manager.insert_attachment. simpl.
  rewrite map_app. simpl. apply NoDup_app. split; [done|]. split; [|apply NoDup_singleton].
  intros x Hx ->%list_elem_of_singleton. by apply next_rowid_fresh in Hx.
Qed.

Lemma delete_attachment_keys attachment_id d :
  primary_keys d →
  primary_keys (set_attachments (filter (λ r, att_id r ≠ attachment_id) (attachments d))
                                (attachments_seq d) d).
Proof.
  intros [Hp Ha]. split; [done|]. simpl.
  induction (attachments d) as [|row rows IH]; [done|].
  simpl in Ha. apply NoDup_cons in Ha as [Hnotin Ha].
  rewrite filter_cons. destruct (decide _); [|by apply IH].
  simpl. apply NoDup_cons. split; [|by apply IH].
  intros Hin. apply Hnotin.
  apply list_elem_of_fmap in Hin as (r & -> & Hr%list_elem_of_filter).
  apply list_elem_of_fmap. exists r. by destruct Hr.
Qed.

Lemma batch_update_keys updated_entries new_salt new_pw_hash :
  preserves (λ w, primary_keys (db w))
    (db_manager.batch_update_passwords_and_config updated_entries new_salt new_pw_hash).
Proof.
  intros w Hw. unfold db_manager.batch_update_passwords_and_config,
    db_manager.create_snapshot, db_manager.execute, world_of.
  unfold_monad. simpl.
  by apply (executemany_update_keys _ (db w)).
Qed.

Lemma unlock_keys self password stored_salt :
  preserves (λ w, primary_keys (db w)) (crypto_manager.unlock self password stored_salt).
Proof.
  unfold crypto_manager.unlock, crypto_manager.derive_key. preserves_walk.
Qed.

Lemma encrypt_bytes_keys self plaintext :
  preserves (λ w, primary_keys (db w)) (crypto_manager.encrypt_bytes self plaintext).
Proof.
  unfold crypto_manager.encrypt_bytes, crypto_manager.AESGCM. preserves_walk.
Qed.

Lemma decrypt_bytes_keys self nonce ct :
  preserves (λ w, primary_keys (db w)) (crypto_manager.decrypt_bytes self nonce ct).
Proof.
  unfold crypto_manager.decrypt_bytes, crypto_manager.AESGCM. preserves_walk.
Qed.

Lemma get_master_config_keys :
  preserves (λ w, primary_keys (db w)) db_manager.get_master_config.
Proof.
  unfold db_manager.get_master_config, db_manager.query. preserves_walk.
Qed.

#[local] Hint Resolve batch_update_keys unlock_keys encrypt_bytes_keys decrypt_bytes_keys
  get_master_config_keys : preserves.

(** Every request leaves the primary keys of the store in place; they hold
    in the empty store, hence in every store the handlers build. *)
Lemma handle_preserves_primary_keys req :
  preserves (λ w, primary_keys (db w)) (app.handle req).
Proof.
  destruct req; simpl;
    unfold app.get_status, app.initialize_vault, app.unlock_vault, app.lock_vault,
      app.list_passwords, app.add_password, app.change_master_password,
      app.list_attachments, app.upload_attachment, app.download_attachment,
      app.delete_attachment, app.get_crypto, app.call, app.call_mut,
      crypto_manager.generate_salt, crypto_manager.ph_hash_call,
      crypto_manager.ph_verify_call, crypto_manager.encrypt, crypto_manager.decrypt,
      db_manager.set_master_config, db_manager.get_passwords, db_manager.store_password,
      db_manager.get_attachments, db_manager.get_attachment, db_manager.add_attachment,
      db_manager.delete_attachment, db_manager.query;
    preserves_walk;
    try (apply preserves_execute; intros d Hd;
         first [ done | by apply insert_password_keys | by apply insert_attachment_keys
               | by apply delete_attachment_keys ]).
Qed.

Lemma empty_db_primary_keys : primary_keys empty_db.
Proof. split; constructor. Qed.
End invariant.

(** ** The stand-in libraries keep the laws *)

Module StandInLaws.
Import StandIn.

Lemma length_pad_to n l : length (pad_to n l) = n.
Proof. unfold pad_to. rewrite length_take, length_app, length_replicate. lia. Qed.

#[global] Instance kdf_laws : KdfLaws.
Proof.
  split; simpl; unfold kdf.
  - intros secret salt Hl. rewrite Hl. simpl. eauto.
  - intros secret salt k. destruct (_ <? _)%nat; [done|].
    intros [= <-]. apply length_pad_to.
Qed.

#[global] Instance aead_laws : AeadLaws.
Proof.
  split; simpl; unfold open, seal. intros k n p _ _.
  assert (Ht : length (tag k n) = 16%nat) by apply length_pad_to.
  rewrite length_app, Ht.
  replace (length p + 16 - 16)%nat with (length p) by lia.
  rewrite decide_True by lia.
  rewrite drop_app_length, decide_True by done.
  by rewrite take_app_length.
Qed.

#[global] Instance hasher_laws : HasherLaws.
Proof.
  split; simpl.
  - intros r pw _. by apply bool_decide_eq_true.
  - intros r pw. discriminate.
Qed.

#[global] Instance codec_laws : CodecLaws.
Proof. split; simpl. intros s. by rewrite string_of_list_byte_of_string. Qed.

Lemma world1_config :
  has_master_config (db world1)
    (map (entropy world0) (seq 0 16)) "$stand-in$Secret1".
Proof.
  split; [by vm_compute|]. split; [by vm_compute|].
  eexists. split; [by vm_compute|]. split; [by vm_compute|]. discriminate.
Qed.
Lemma world2_config :
  has_master_config (db world2)
    (map (entropy world0) (seq 0 16)) "$stand-in$Secret1".
Proof.
  split; [by vm_compute|]. split; [by vm_compute|].
  eexists. split; [by vm_compute|]. split; [by vm_compute|]. discriminate.
Qed.

Lemma world2_row_unreadable : Exists (λ row, ¬ decrypts world2 row) (passwords (db world2)).
Proof.
  apply Exists_exists. eexists. split.
  - apply list_elem_of_here.
  - intros [pt Hpt]. vm_compute in Hpt. discriminate.
Qed.

Lemma world1_rotation :
  app.change_master_password "Secret1" "Secret2" world1
  = (trace_of (app.change_master_password "Secret1" "Secret2" world1),
     world_of (app.change_master_password "Secret1" "Secret2" world1),
     Ok (Message "Master password changed successfully")).
Proof. by vm_compute. Qed.
End StandInLaws.

(** ** The theorems at concrete requests *)


Lemma locked_guard_witness :
  serve [ListPasswords; AddPassword StandIn.entry1; DownloadAttachment 1;
         ChangeMasterPassword "Secret1" "Secret2"]
        (world_of (app.lock_vault StandIn.world1)) =
    (replicate 4 ([], Raise (HTTPException 401 [Lit "Vault is locked"])),
     world_of (app.lock_vault StandIn.world1)).
Proof.
  apply (locked_guard StandIn.world1
           [ListPasswords; AddPassword StandIn.entry1; DownloadAttachment 1;
            ChangeMasterPassword "Secret1" "Secret2"]).
  repeat constructor.
Defined.

Lemma init_only_once_witness :
  app.initialize_vault "Other" StandIn.world1 =
    ([DbRead TConfig; DbRead TConfig], StandIn.world1,
     Raise (HTTPException 400 [Lit "Vault already initialized"]))
  ∧ crypto_manager.is_unlocked
      (crypto (world_of (app.initialize_vault "Secret1" StandIn.world0))) = true.
Proof.
  destruct (init_only_once StandIn.world1 "Other") as [Hrefused _].
  destruct (init_only_once StandIn.world0 "Secret1") as [_ Hcreated].
  split.
  - exact (Hrefused _ _ StandInLaws.world1_config).
  - destruct Hcreated as (t & w' & key & Hrun & _ & _ & _ & _ & _ & Hu).
    + by vm_compute.
    + by rewrite Hrun.
Defined.

Lemma list_tolerates_decryption_failure_witness :
  result_of (app.list_passwords StandIn.world2) =
    Ok (PasswordList [ {| resp_id := 2; resp_service := "bank"; resp_username := "b@x.com";
                          resp_password := "correct horse" |} ])
  ∧ Stdout [Lit "Failed to decrypt ID "; Int 1; Lit ": "; Exc InvalidTag]
      ∈ trace_of (app.list_passwords StandIn.world2).
Proof.
  rewrite (list_tolerates_decryption_failure StandIn.world2) by by vm_compute.
  split; [by vm_compute|]. vm_compute. repeat first [apply list_elem_of_here | apply list_elem_of_further].
Defined.

Lemma encrypt_decrypt_round_trip_witness :
  ∃ t w1 enc,
    crypto_manager.encrypt_bytes {| master_key := Some StandIn.key32 |}
      [Byte.x68; Byte.x69] StandIn.world0 = (t, w1, Ok enc) ∧
    length (enc_nonce enc) = 12%nat ∧
    ∀ w2, crypto_manager.decrypt_bytes {| master_key := Some StandIn.key32 |}
            (enc_nonce enc) (enc_ciphertext enc) w2 =
          ([AeadDecrypt (enc_nonce enc) (enc_ciphertext enc)], w2, Ok [Byte.x68; Byte.x69]).
Proof.
  apply (encrypt_decrypt_round_trip StandIn.key32 [Byte.x68; Byte.x69] StandIn.world0).
  by vm_compute.
Defined.

Lemma add_password_returns_placeholder_witness :
  ∃ t w' row item,
    app.add_password StandIn.entry2 StandIn.world1 = (t, w', Ok (PasswordItem item)) ∧
    passwords (db w') = passwords (db StandIn.world1) ++ [row] ∧
    pw_id row = 2 ∧ resp_id item = 0.
Proof.
  destruct (add_password_returns_placeholder StandIn.entry2
              (default [] (master_key (crypto StandIn.world1))) StandIn.world1)
    as (t & w' & row & item & Hrun & Hrows & Hid & _ & _ & Hresp & _).
  - by vm_compute.
  - by vm_compute.
  - exists t, w', row, item. rewrite Hid. repeat split; done.
Defined.

Lemma rotation_atomicity_witness :
  ∃ t row,
    app.change_master_password "Secret1" "Secret2" StandIn.world2
    = (t, StandIn.world2,
       Raise (HTTPException 500 [Lit "Failed to decrypt password ID "; Int (pw_id row);
                                 Lit ". Aborting rotation."])) ∧
    row ∈ passwords (db StandIn.world2) ∧
    result_of (app.unlock_vault "Secret1" StandIn.world2) = Ok (Message "Vault unlocked").
Proof.
  destruct (rotation_atomicity StandIn.world2 "Secret1" "Secret2" _ _
              eq_refl StandInLaws.world2_config eq_refl StandInLaws.world2_row_unreadable)
    as (t & row & key & Hrun & Hin & _ & _ & _ & Hunlock).
  exists t, row. split; [exact Hrun|]. split; [exact Hin|]. by rewrite Hunlock.
Defined.


Lemma rotation_skips_attachments_witness :
  attachments (db (world_of (app.change_master_password "Secret1" "Secret2" StandIn.world1)))
  = attachments (db StandIn.world1)
  ∧ result_of (app.download_attachment 1 StandIn.world1)
    = Ok (FileDownload [Byte.x41; Byte.x42] "notes.txt")
  ∧ result_of (app.download_attachment 1
                 (world_of (app.change_master_password "Secret1" "Secret2" StandIn.world1)))
    = Raise (HTTPException 500 [Lit "Decryption failed: "; Exc InvalidTag]).
Proof.
  destruct (rotation_skips_attachments StandIn.world1 "Secret1" "Secret2" _ _ _
              StandInLaws.world1_rotation)
    as (Hsame & _ & new_salt & new_key & Hsalt & Hk & _ & Hdownload).
  split; [exact Hsame|]. split; [by vm_compute|].
  vm_compute in Hsalt. injection Hsalt as <-.
  vm_compute in Hk. injection Hk as <-.
  erewrite (Hdownload 1) by (vm_compute; reflexivity).
  by vm_compute.
Defined.


(** C3 at a concrete vault: the attachment that downloads before the
    rotation no longer does after it. *)
Example attachment_unreadable_after_rotation :
  result_of (app.change_master_password "Secret1" "Secret2" StandIn.world1)
  = Ok (Message "Master password changed successfully")
  ∧ result_of (app.download_attachment 1 StandIn.world1)
    = Ok (FileDownload [Byte.x41; Byte.x42] "notes.txt")
  ∧ result_of (app.download_attachment 1
                 (world_of (app.change_master_password "Secret1" "Secret2" StandIn.world1)))
    = Raise (HTTPException 500 [Lit "Decryption failed: "; Exc InvalidTag])
  ∧ result_of (app.list_passwords
                 (world_of (app.change_master_password "Secret1" "Secret2" StandIn.world1)))
    = Ok (PasswordList [ {| resp_id := 1; resp_service := "email";
                            resp_username := "a@x.com"; resp_password := "hunter2" |} ]).
Proof. by vm_compute. Qed.

(** C8 at a concrete vault: the first secret is stored under id 1 and
    reported under id 0. *)
Example add_password_reports_zero :
  let o := app.add_password StandIn.entry1
             (world_of (app.initialize_vault "Secret1" StandIn.world0)) in
  result_of o = Ok (PasswordItem {| resp_id := 0; resp_service := "email";
                                    resp_username := "a@x.com";
                                    resp_password := "hunter2" |})
  ∧ map pw_id (passwords (db (world_of o))) = [1].
Proof. by vm_compute. Qed.

(** * Further properties of the handlers *)

Section attachments.
Context `{Primitives}.

Lemma call_run {A} (method : CryptoManager → M A) w :
  app.call method w = method (crypto w) w.
Proof.
  unfold app.call. unfold_monad. simpl.
  destruct (method (crypto w) w) as [[t w1] r]. by destruct r.
Qed.

Lemma unlocked_key c key : master_key c = Some key → crypto_manager.is_unlocked c = true.
Proof. intros Hk. unfold crypto_manager.is_unlocked. by rewrite Hk. Qed.






Lemma head_filter_app {A} (P : A → Prop) `{!∀ x, Decision (P x)} (l k : list A) :
  head (filter P (l ++ k)) =
    match head (filter P l) with Some x => Some x | None => head (filter P k) end.
Proof.
  rewrite filter_app. by destruct (filter P l).
Qed.





End attachments.

Section secrets.
Context `{Primitives}.

Lemma decrypt_any_world c nonce ct w1 w2 :
  trace_of (crypto_manager.decrypt c nonce ct w1) = trace_of (crypto_manager.decrypt c nonce ct w2)
  ∧ result_of (crypto_manager.decrypt c nonce ct w1)
    = result_of (crypto_manager.decrypt c nonce ct w2).
Proof.
  unfold crypto_manager.decrypt, crypto_manager.decrypt_bytes, crypto_manager.AESGCM,
    trace_of, result_of.
  destruct (truthy_bytes _); simpl; [|done].
  unfold_monad. destruct (_ || _)%bool; simpl; [|done].
  destruct (aesgcm_decrypt _ _ _) as [plaintext|]; simpl; [|done].
  by destruct (str_decode plaintext).
Qed.

Lemma attempt_same_key w1 w2 row :
  crypto w1 = crypto w2 →
  trace_of (attempt w1 row) = trace_of (attempt w2 row)
  ∧ result_of (attempt w1 row) = result_of (attempt w2 row).
Proof. intros Hc. unfold attempt. rewrite Hc. apply decrypt_any_world. Qed.

Lemma omap_pointwise {A B} (f g : A → option B) (l : list A) :
  (∀ x, f x = g x) → omap f l = omap g l.
Proof.
  intros Hfg. induction l as [|x l IH]; [done|]. cbn [omap list_omap].
  by rewrite Hfg, IH.
Qed.

(** The listing as a function of the live key and the rows. *)
Lemma list_passwords_run w :
  crypto_manager.is_unlocked (crypto w) = true →
  app.list_passwords w =
    (DbRead TPasswords ::
       flat_map (λ row, trace_of (attempt w row) ++
                   match result_of (attempt w row) with
                   | Ok _ => []
                   | Raise e => [Stdout [Lit "Failed to decrypt ID "; Int (pw_id row);
                                         Lit ": "; Exc e]]
                   end) (passwords (db w)),
     w,
     Ok (PasswordList
           (omap (λ row, match result_of (attempt w row) with
                         | Ok pt => Some {| resp_id := pw_id row;
                                            resp_service := pw_service row;
                                            resp_username := pw_username row;
                                            resp_password := pt |}
                         | Raise _ => None
                         end) (passwords (db w))))).
Proof.
  intros Hu. unfold app.list_passwords.
  unfold bind at 1. rewrite (get_crypto_unlocked _ Hu).
  unfold db_manager.get_passwords, db_manager.query.
  unfold mbind at 1. unfold M_bind at 1. unfold bind at 1. unfold bind at 1.
  unfold emit, gets.
  unfold mbind at 1. unfold M_bind at 1. unfold bind at 1.
  rewrite list_loop. simpl. by rewrite app_nil_r.
Qed.

Lemma add_password_run entry key w :
  master_key (crypto w) = Some key → length key = 32%nat →
  let nonce := map (entropy w) (seq (drawn w) 12) in
  app.add_password entry w =
    ([Urandom 12; AeadEncrypt nonce (str_encode (entry_password entry));
      SnapshotTaken; DbWrite TPasswords],
     after_write
       (db_manager.insert_password (entry_service entry) (entry_username entry)
          (aesgcm_encrypt key nonce (str_encode (entry_password entry))) nonce (db w))
       (set_drawn (drawn w + 12)%nat w),
     Ok (PasswordItem {| resp_id := 0; resp_service := entry_service entry;
                         resp_username := entry_username entry;
                         resp_password := entry_password entry |})).
Proof.
  intros Hk Hl nonce. unfold app.add_password.
  unfold bind at 1. rewrite get_crypto_unlocked by by apply (unlocked_key _ key).
  unfold mbind, M_bind. unfold bind at 1.
  rewrite call_run. unfold crypto_manager.encrypt.
  rewrite (encrypt_bytes_spec _ key) by done.
  unfold db_manager.store_password, db_manager.create_snapshot, db_manager.execute.
  unfold_monad. by cbn -[seq next_rowid].
Qed.

(** X2. A secret added to an unlocked vault comes back from the next
    listing: the listing is the one before the [add], followed by the new
    secret with its service, its username, its plaintext and the id the
    store generated for it. Secrets stored before are listed as before. *)
Theorem add_then_list `{!AeadLaws} `{!CodecLaws} entry key w :
  master_key (crypto w) = Some key → length key = 32%nat →
  let w' := world_of (app.add_password entry w) in
  ∃ listed,
    result_of (app.list_passwords w) = Ok (PasswordList listed) ∧
    result_of (app.list_passwords w')
    = Ok (PasswordList
            (listed ++
             [ {| resp_id := next_rowid (passwords_seq (db w)) (map pw_id (passwords (db w)));
                  resp_service := entry_service entry;
                  resp_username := entry_username entry;
                  resp_password := entry_password entry |} ])).
Proof.
  intros Hk Hl w'. unfold w'. rewrite (add_password_run _ key) by done.
  unfold world_of. cbn [fst snd].
  set (w1 := after_write _ _).
  assert (Hc : crypto w1 = crypto w) by done.
  rewrite !list_passwords_run by (rewrite ?Hc; by apply (unlocked_key _ key)).
  eexists. split; [reflexivity|]. unfold result_of. cbn [snd]. do 2 f_equal.
  change (passwords (db w1)) with
    (passwords (db w) ++
     [ {| pw_id := next_rowid (passwords_seq (db w)) (map pw_id (passwords (db w)));
          pw_service := entry_service entry; pw_username := entry_username entry;
          pw_encrypted_data :=
            aesgcm_encrypt key (map (entropy w) (seq (drawn w) 12))
              (str_encode (entry_password entry));
          pw_nonce := map (entropy w) (seq (drawn w) 12) |} ]).
  rewrite omap_app. f_equal.
  - apply omap_pointwise. intros row. cbv beta.
    destruct (attempt_same_key w1 w row Hc) as [_ Hr]. unfold result_of in Hr. by rewrite Hr.
  - cbn [omap list_omap]. unfold attempt. cbn [pw_nonce pw_encrypted_data pw_id pw_service pw_username].
    rewrite (decrypt_spec _ key) by (by rewrite ?Hc).
    unfold result_of. cbn [snd].
    rewrite aead_round_trip; [|done|by rewrite length_map, length_seq].
    by rewrite decode_encode.
Qed.
End secrets.

Section lifecycle.
Context `{Primitives}.

(** X12. [unlock] on a vault without a MasterConfig is answered
    with the 400 "Vault not initialized": the verifier and Argon2 are not
    called and the world is unchanged. *)
Theorem unlock_uninitialized w password :
  no_master_config (db w) →
  app.unlock_vault password w
  = ([DbRead TConfig; DbRead TConfig], w,
     Raise (HTTPException 400 [Lit "Vault not initialized"])).
Proof.
  intros Hn. unfold app.unlock_vault.
  unfold mbind, M_bind. unfold bind at 1. by rewrite (get_master_config_none _ Hn).
Qed.

(** X10. A vault unlocked with its password, then locked, then
    unlocked with the same password, is in the world it was in before the
    [lock]: the same key is derived again and nothing else moved. *)
Theorem lock_then_unlock w password salt h key :
  has_master_config (db w) salt h →
  ph_verify h password = true →
  hash_secret_raw (str_encode password) salt = Some key →
  crypto w = {| master_key := Some key |} →
  let w1 := world_of (app.lock_vault w) in
  crypto_manager.is_unlocked (crypto w1) = false ∧
  app.unlock_vault password w1
  = ([DbRead TConfig; DbRead TConfig; VerifyCall (Some h) password;
      KdfCall (str_encode password) salt], w, Ok (Message "Vault unlocked")).
Proof.
  intros Hc Hv Hk Hkey w1. split; [done|].
  assert (Hc1 : has_master_config (db w1) salt h) by done.
  rewrite (unlock_vault_spec _ _ _ _ Hc1), Hv, Hk.
  do 2 f_equal. unfold w1, app.lock_vault, world_of. unfold_monad. simpl.
  destruct w. simpl in *. by rewrite Hkey.
Qed.

(** X13. Rotation with a current password the stored verifier
    rejects is answered with the 401 "Invalid current password" before any
    secret is read or decrypted; the world is unchanged. *)
Theorem rotation_rejects_wrong_current_password w current_password new_password salt h :
  crypto_manager.is_unlocked (crypto w) = true →
  has_master_config (db w) salt h →
  ph_verify h current_password = false →
  app.change_master_password current_password new_password w
  = ([DbRead TConfig; DbRead TConfig; VerifyCall (Some h) current_password], w,
     Raise (HTTPException 401 [Lit "Invalid current password"])).
Proof.
  intros Hu Hc Hv. unfold app.change_master_password.
  unfold bind at 1. rewrite (get_crypto_unlocked _ Hu).
  unfold mbind at 1. unfold M_bind at 1. unfold bind at 1.
  rewrite (get_master_config_spec _ _ _ Hc). cbn match.
  unfold bind at 1. rewrite verify_guard, Hv. done.
Qed.

Lemma get_master_config_verifier w h :
  stored_verifier (db w) h →
  db_manager.get_master_config w
  = ([DbRead TConfig; DbRead TConfig], w, Ok (config (db w) !! "salt", Some h)).
Proof.
  intros (blob & Hb & Hd).
  unfold db_manager.get_master_config, db_manager.query. unfold_monad.
  simpl. by rewrite Hb, Hd.
Qed.

Lemma rotation_forward `{!KdfLaws} w current_password new_password h :
  crypto_manager.is_unlocked (crypto w) = true →
  stored_verifier (db w) h →
  ph_verify h current_password = true →
  Forall (decrypts w) (passwords (db w)) →
  ∃ t new_key,
    app.change_master_password current_password new_password w
    = (t, rotated w new_password new_key, Ok (Message "Master password changed successfully")) ∧
    hash_secret_raw (str_encode new_password) (map (entropy w) (seq (drawn w) 16))
    = Some new_key ∧
    length new_key = 32%nat.
Proof.
  intros Hu Hh Hv Hall.
  destruct (change_master_password_cases current_password new_password w)
    as (t & w' & r & Hrun & [(_ & _ & e & _ & Hcase)|(h' & new_key & -> & -> & _ & _ & _ & _ & Hk & Hl)]).
  - exfalso. rewrite (get_master_config_verifier _ _ Hh) in Hcase.
    unfold result_of in Hcase. simpl in Hcase.
    destruct Hcase as [Hlocked|[Hraise|[(s & sh & [= <- <-] & Hrej)|(row & Hin & Hrow & _)]]].
    + congruence.
    + discriminate.
    + specialize (Hrej h eq_refl). congruence.
    + apply Hrow. rewrite Forall_forall in Hall. by apply Hall.
  - by exists t, new_key.
Qed.

Lemma executemany_update_length data d :
  length (passwords (db_manager.executemany_update data d)) = length (passwords d).
Proof.
  unfold db_manager.executemany_update. cbn [passwords set_passwords].
  generalize (passwords d). induction data as [|[[ct nonce] rowid] data IH];
    intros rows; simpl; [done|].
  rewrite IH. unfold db_manager.update_ciphertext. by rewrite length_map.
Qed.

(** X14. On an unlocked vault, with a current password the stored verifier
    accepts and secrets that all decrypt (none stored is one such case),
    rotation never fails. It leaves the world [rotated]: the store as it was
    before is saved under the current second, the config holds the new salt,
    the live key is derived from the new password and that salt, and the
    secrets table has as many rows as before. *)
Theorem rotation_goes_through `{!KdfLaws} w current_password new_password h :
  crypto_manager.is_unlocked (crypto w) = true →
  stored_verifier (db w) h →
  ph_verify h current_password = true →
  Forall (decrypts w) (passwords (db w)) →
  ∃ t new_key,
    app.change_master_password current_password new_password w
    = (t, rotated w new_password new_key, Ok (Message "Master password changed successfully")) ∧
    hash_secret_raw (str_encode new_password) (map (entropy w) (seq (drawn w) 16))
    = Some new_key ∧
    snapshots (rotated w new_password new_key) !! now w = Some (db w) ∧
    config (db (rotated w new_password new_key)) !! "salt"
    = Some (map (entropy w) (seq (drawn w) 16)) ∧
    length (passwords (db (rotated w new_password new_key))) = length (passwords (db w)).
Proof.
  intros Hu Hh Hv Hall.
  destruct (rotation_forward w current_password new_password h Hu Hh Hv Hall)
    as (t & new_key & Hrun & Hk & Hl).
  exists t, new_key. split; [done|]. split; [done|].
  split. { unfold rotated. cbn -[seq]. by rewrite lookup_insert_eq. }
  split. { unfold rotated. cbn -[seq]. by rewrite lookup_insert_ne, lookup_insert_eq. }
  unfold rotated. cbn -[seq plaintexts reencrypt db_manager.executemany_update].
  apply executemany_update_length.
Qed.
End lifecycle.

Section listing_after_rotation.
Context `{Primitives} `{!KdfLaws} `{!AeadLaws} `{!CodecLaws}.

(** X15. A rotation that goes through does not change what
    [list_passwords] answers: the same secrets, ids, services, usernames
    and plaintexts, in the same order. *)
Theorem rotation_keeps_listing w current_password new_password t w' resp :
  NoDup (map pw_id (passwords (db w))) →
  app.change_master_password current_password new_password w = (t, w', Ok resp) →
  result_of (app.list_passwords w') = result_of (app.list_passwords w).
Proof.
  intros Hnodup Hrun.
  destruct (change_master_password_cases current_password new_password w)
    as (t1 & w1 & r & Hrun1 & Hcase).
  rewrite Hrun in Hrun1. injection Hrun1 as <- <- <-.
  destruct Hcase as [(_ & _ & e & [=] & _)|(h & new_key & -> & _ & Hu & _ & _ & Hall & Hk & Hl)].
  rewrite !list_passwords_run by done. unfold result_of. cbn [snd]. do 2 f_equal.
  symmetry. apply list_omap_ext.
  eapply Forall2_impl; [by apply (rotated_passwords w new_password new_key)|].
  intros row row' (Hid & Hs & Hn & Hlen & pt & Hpt & Hct). cbv beta.
  unfold result_of in Hpt. rewrite Hpt.
  unfold attempt. rewrite (decrypt_spec _ new_key) by done. cbn [snd].
  rewrite Hct, aead_round_trip, decode_encode by done.
  by rewrite Hid, Hs, Hn.
Qed.
Lemma Forall2_right {A B} (P : A → B → Prop) (Q : B → Prop) l k :
  Forall2 P l k → (∀ a b, P a b → Q b) → Forall Q k.
Proof. intros HP HPQ. induction HP; constructor; eauto. Qed.

(** X20. A rotation that goes through leaves a vault on which rotation
    goes through again: unlocked, with a verifier that accepts the new
    password and secrets that all decrypt under the new key. Rotating from
    the new password to a third one therefore succeeds. *)
Theorem rotation_can_be_repeated `{!HasherLaws}
    w current_password new_password third_password t w' resp :
  NoDup (map pw_id (passwords (db w))) →
  app.change_master_password current_password new_password w = (t, w', Ok resp) →
  Forall (decrypts w') (passwords (db w')) ∧
  result_of (app.change_master_password new_password third_password w')
  = Ok (Message "Master password changed successfully").
Proof.
  intros Hnodup Hrun.
  destruct (change_master_password_cases current_password new_password w)
    as (t1 & w1 & r & Hrun1 & Hcase).
  rewrite Hrun in Hrun1. injection Hrun1 as <- <- <-.
  destruct Hcase as [(_ & _ & e & [=] & _)|(h & new_key & -> & _ & Hu & _ & _ & Hall & Hk & Hl)].
  assert (Hdec : Forall (decrypts (rotated w new_password new_key))
                   (passwords (db (rotated w new_password new_key)))).
  { eapply Forall2_right; [by apply (rotated_passwords w new_password new_key)|].
    intros row row' (_ & _ & _ & Hn & pt & _ & Hct).
    exists pt. unfold attempt. rewrite (decrypt_spec _ new_key) by done.
    unfold result_of. cbn [snd].
    by rewrite Hct, aead_round_trip, decode_encode. }
  split; [done|].
  set (r := map (entropy w) (seq (drawn w + 16)%nat 16)).
  destruct (rotation_forward (rotated w new_password new_key) new_password third_password
              (ph_hash r new_password)) as (t2 & key2 & Hrun2 & _).
  - done.
  - eexists. unfold rotated. cbn -[seq]. split; [by rewrite lookup_insert_eq|].
    apply decode_encode.
  - apply hasher_accepts. unfold r. by rewrite length_map, length_seq.
  - done.
  - by rewrite Hrun2.
Qed.
End listing_after_rotation.

(** ** What a handler leaves alone *)




Ltac unfold_handlers :=
  unfold app.get_status, app.initialize_vault, app.unlock_vault, app.lock_vault,
    app.list_passwords, app.add_password, app.change_master_password,
    app.list_attachments, app.upload_attachment, app.download_attachment,
    app.delete_attachment, app.get_crypto, app.call, app.call_mut,
    crypto_manager.generate_salt, crypto_manager.ph_hash_call,
    crypto_manager.ph_verify_call, crypto_manager.encrypt, crypto_manager.decrypt,
    crypto_manager.encrypt_bytes, crypto_manager.decrypt_bytes, crypto_manager.AESGCM,
    crypto_manager.unlock, crypto_manager.derive_key,
    db_manager.set_master_config, db_manager.get_passwords, db_manager.store_password,
    db_manager.get_attachments, db_manager.get_attachment, db_manager.add_attachment,
    db_manager.delete_attachment, db_manager.get_master_config, db_manager.query.

(** Goes through a computation whose every step keeps the property by
    itself: the steps are looked at one by one, along binds, handlers,
    loops and branches. *)
Ltac frame_walk :=
  repeat match goal with
    | |- preserves _ (mbind _ _) => unfold mbind, M_bind
    | |- preserves _ (bind _ _) => apply preserves_bind; [|intros ?]
    | |- preserves _ (try_except _ _) => apply preserves_try_except; [|intros ?]
    | |- preserves _ (for_fold _ _ _) => apply preserves_for_fold; intros ? ?
    | |- preserves _ (if ?c then _ else _) => destruct c
    | |- preserves _ (match ?x with _ => _ end) => destruct x
    | |- preserves _ _ => solve [intros ?w ?Hw; exact Hw]
    end.

Section frames.
Context `{Primitives}.



(** X8. The status, the two listings and the download change
    nothing at all, whatever they answer: the world after the request is
    the world before it. *)
Theorem read_only_requests req w :
  reads_only req = true → world_of (app.handle req w) = w.
Proof.
  intros Hreq.
  assert (Hp : preserves (λ w', w' = w) (app.handle req)).
  { destruct req; try discriminate; simpl; unfold_handlers; frame_walk. }
  by apply (Hp w).
Qed.

End frames.

(** ** Snapshots *)


Section snapshots.
Context `{Primitives}.





(** X7. Two [add]s one after the other, the second at the
    second [t] of the clock. If [t] is the second of the first [add], the
    snapshot directory holds one copy for it, the store between the two
    adds: the copy of the store before the first [add] has been replaced.
    At any other second both copies are there. *)
Theorem snapshot_same_second entry1 entry2 key t w :
  master_key (crypto w) = Some key → length key = 32%nat →
  let w1 := world_of (app.add_password entry1 w) in
  let w2 := world_of (app.add_password entry2 (at_time t w1)) in
  db w1 ≠ db w ∧
  snapshots w2 !! t = Some (db w1) ∧
  (t ≠ now w → snapshots w2 !! now w = Some (db w)) ∧
  (t = now w → snapshots w2 = <[now w := db w1]> (snapshots w)).
Proof.
  intros Hk Hl w1 w2.
  assert (E1 : w1 = after_write
                 (db_manager.insert_password (entry_service entry1) (entry_username entry1)
                    (aesgcm_encrypt key (map (entropy w) (seq (drawn w) 12))
                       (str_encode (entry_password entry1)))
                    (map (entropy w) (seq (drawn w) 12)) (db w))
                 (set_drawn (drawn w + 12)%nat w)).
  { unfold w1. by rewrite (add_password_run entry1 key w). }
  assert (E2 : snapshots w2 = <[t := db w1]> (snapshots w1)).
  { unfold w2. rewrite (add_password_run entry2 key (at_time t w1)); [done| |done].
    by rewrite E1. }
  assert (S1 : snapshots w1 = <[now w := db w]> (snapshots w)) by by rewrite E1.
  rewrite E2, S1. clear E2 S1. clearbody w2.
  split; [|split; [|split]].
  - rewrite E1. cbn -[seq next_rowid]. intros Heq.
    apply (f_equal (λ d, length (passwords d))) in Heq. cbn -[seq next_rowid] in Heq.
    rewrite length_app in Heq. simpl in Heq. lia.
  - by rewrite lookup_insert_eq.
  - intros Hne. rewrite lookup_insert_ne by done. by rewrite lookup_insert_eq.
  - intros ->. by rewrite insert_insert_eq.
Qed.
End snapshots.

(** ** The secrets table through [db_manager] *)

Section secrets_table.
Context `{Primitives}.

Lemma get_password_by_id_run rowid w :
  db_manager.get_password_by_id rowid w = ([DbRead TPasswords], w, Ok (find_password rowid (db w))).
Proof. unfold db_manager.get_password_by_id, db_manager.query. unfold_monad. done. Qed.

Lemma store_password_run service username encrypted_data nonce w :
  db_manager.store_password service username encrypted_data nonce w
  = ([SnapshotTaken; DbWrite TPasswords],
     after_write (db_manager.insert_password service username encrypted_data nonce (db w)) w,
     Ok tt).
Proof.
  unfold db_manager.store_password, db_manager.create_snapshot, db_manager.execute.
  unfold_monad. done.
Qed.

Lemma find_password_fresh rowid d :
  rowid ∉ map pw_id (passwords d) → find_password rowid d = None.
Proof.
  unfold find_password. induction (passwords d) as [|row rows IH]; [done|].
  intros Hnotin. rewrite filter_cons. destruct (decide _) as [Heq|Hne].
  - exfalso. apply Hnotin. rewrite <- Heq. apply list_elem_of_here.
  - apply IH. intros Hin. apply Hnotin. by apply list_elem_of_further.
Qed.

Lemma find_password_inserted rowid service username ct nonce d :
  find_password rowid (db_manager.insert_password service username ct nonce d)
  = match find_password rowid d with
    | Some row => Some row
    | None =>
        if decide (next_rowid (passwords_seq d) (map pw_id (passwords d)) = rowid)
        then Some {| pw_id := next_rowid (passwords_seq d) (map pw_id (passwords d));
                     pw_service := service; pw_username := username;
                     pw_encrypted_data := ct; pw_nonce := nonce |}
        else None
    end.
Proof.
  unfold find_password, db_manager.insert_password. cbn -[next_rowid].
  rewrite head_filter_app. destruct (head _); [done|].
  rewrite filter_cons. cbn -[next_rowid]. by destruct (decide _).
Qed.

Lemma find_password_stored service username ct nonce d :
  find_password (next_rowid (passwords_seq d) (map pw_id (passwords d)))
    (db_manager.insert_password service username ct nonce d)
  = Some {| pw_id := next_rowid (passwords_seq d) (map pw_id (passwords d));
            pw_service := service; pw_username := username;
            pw_encrypted_data := ct; pw_nonce := nonce |}.
Proof.
  rewrite find_password_inserted, find_password_fresh by apply next_rowid_fresh.
  by rewrite decide_True.
Qed.

(** X16. A row stored through [store_password] is the row
    [get_password_by_id] fetches under the id the table generated, field by
    field; every other id fetches what it fetched before. *)
Theorem store_then_get service username encrypted_data nonce w :
  let rowid := next_rowid (passwords_seq (db w)) (map pw_id (passwords (db w))) in
  let w1 := world_of (db_manager.store_password service username encrypted_data nonce w) in
  result_of (db_manager.get_password_by_id rowid w1)
  = Ok (Some {| pw_id := rowid; pw_service := service; pw_username := username;
                pw_encrypted_data := encrypted_data; pw_nonce := nonce |}) ∧
  passwords_seq (db w1) = rowid ∧
  ∀ other, other ≠ rowid →
    result_of (db_manager.get_password_by_id other w1)
    = result_of (db_manager.get_password_by_id other w).
Proof.
  intros rowid w1. unfold w1. rewrite store_password_run.
  unfold world_of. cbn [fst snd]. rewrite !get_password_by_id_run.
  unfold result_of. cbn [snd db after_write]. split; [|split; [done|]].
  - unfold rowid. by rewrite find_password_stored.
  - intros other Hne. rewrite !get_password_by_id_run. cbn [snd db after_write]. f_equal.
    rewrite find_password_inserted. destruct (find_password other (db w)); [done|].
    by rewrite decide_False.
Qed.

Lemma find_password_updated rowid other service username ct nonce rows :
  head (filter (λ r, pw_id r = other)
          (map (λ r, if decide (pw_id r = rowid)
                     then {| pw_id := pw_id r; pw_service := service; pw_username := username;
                             pw_encrypted_data := ct; pw_nonce := nonce |}
                     else r) rows))
  = if decide (other = rowid)
    then (λ r, {| pw_id := pw_id r; pw_service := service; pw_username := username;
                  pw_encrypted_data := ct; pw_nonce := nonce |})
         <$> head (filter (λ r, pw_id r = other) rows)
    else head (filter (λ r, pw_id r = other) rows).
Proof.
  induction rows as [|row rows IH]; [by destruct (decide _)|].
  cbn [map]. rewrite !filter_cons.
  destruct (decide (pw_id row = rowid)) as [Hr|Hr]; cbn [pw_id].
  - destruct (decide (pw_id row = other)) as [Ho|Ho].
    + rewrite decide_True by congruence. done.
    + exact IH.
  - destruct (decide (pw_id row = other)) as [Ho|Ho].
    + rewrite decide_False by congruence. done.
    + exact IH.
Qed.

(** X17. [update_password] replaces service, username, ciphertext and
    nonce of the row with the given id and of no other row; it saves the
    store first. For an id the table does not hold no row changes, and the
    snapshot is taken all the same. *)
Theorem update_then_get rowid service username encrypted_data nonce w :
  let w1 := world_of (db_manager.update_password rowid service username encrypted_data nonce w) in
  (rowid ∈ map pw_id (passwords (db w)) →
     result_of (db_manager.get_password_by_id rowid w1)
     = Ok (Some {| pw_id := rowid; pw_service := service; pw_username := username;
                   pw_encrypted_data := encrypted_data; pw_nonce := nonce |})) ∧
  (rowid ∉ map pw_id (passwords (db w)) → passwords (db w1) = passwords (db w)) ∧
  (∀ other, other ≠ rowid →
     result_of (db_manager.get_password_by_id other w1)
     = result_of (db_manager.get_password_by_id other w)) ∧
  map pw_id (passwords (db w1)) = map pw_id (passwords (db w)) ∧
  snapshots w1 !! now w = Some (db w).
Proof.
  intros w1.
  assert (E : w1 = after_write
    (set_passwords
       (map (λ r, if decide (pw_id r = rowid)
                  then {| pw_id := pw_id r; pw_service := service; pw_username := username;
                          pw_encrypted_data := encrypted_data; pw_nonce := nonce |}
                  else r) (passwords (db w)))
       (passwords_seq (db w)) (db w)) w).
  { unfold w1, db_manager.update_password, db_manager.create_snapshot, db_manager.execute,
      world_of. unfold_monad. done. }
  rewrite E. clear E w1. split; [|split; [|split; [|split]]].
  - intros Hin. rewrite get_password_by_id_run. unfold result_of, find_password.
    cbn [snd db after_write passwords set_passwords].
    rewrite find_password_updated, decide_True by done.
    apply list_elem_of_fmap in Hin as (row & Hid & Hrow).
    assert (Hhead : ∃ r, head (filter (λ r, pw_id r = rowid) (passwords (db w))) = Some r
                         ∧ pw_id r = rowid).
    { clear -Hid Hrow. induction Hrow as [row rows|row row' rows _ IH].
      - exists row. rewrite filter_cons, decide_True by done. done.
      - rewrite filter_cons. destruct (decide (pw_id row' = rowid)); [by exists row'|].
        by apply IH. }
    destruct Hhead as (r & -> & Hr). simpl. by rewrite Hr.
  - intros Hnotin. cbn [db after_write passwords set_passwords].
    induction (passwords (db w)) as [|row rows IH]; [done|]. cbn [map].
    rewrite decide_False.
    + f_equal. apply IH. intros Hin. apply Hnotin. by apply list_elem_of_further.
    + intros Heq. apply Hnotin. rewrite <- Heq. apply list_elem_of_here.
  - intros other Hne. rewrite !get_password_by_id_run. unfold result_of, find_password.
    cbn [snd db after_write passwords set_passwords].
    by rewrite find_password_updated, decide_False.
  - cbn [db after_write passwords set_passwords]. rewrite map_map. apply map_ext.
    intros row. by destruct (decide _).
  - cbn [snapshots after_write]. by rewrite lookup_insert_eq.
Qed.

Lemma find_password_deleted rowid other d :
  find_password other
    (set_passwords (filter (λ r, pw_id r ≠ rowid) (passwords d)) (passwords_seq d) d)
  = if decide (other = rowid) then None else find_password other d.
Proof.
  unfold find_password. simpl.
  destruct (decide (other = rowid)) as [->|Hother].
  - induction (passwords d) as [|row rows IH]; [done|].
    rewrite filter_cons. destruct (decide (pw_id row ≠ rowid)); [|done].
    rewrite filter_cons. by rewrite decide_False.
  - induction (passwords d) as [|row rows IH]; [done|].
    rewrite !filter_cons.
    destruct (decide (pw_id row ≠ rowid)) as [Hne|Heq%dec_stable].
    + rewrite filter_cons. by destruct (decide (pw_id row = other)).
    + rewrite decide_False by congruence. exact IH.
Qed.

Lemma max_rowid_le seq ids : seq < next_rowid seq ids.
Proof. unfold next_rowid. lia. Qed.

(** X18. The ids of the secrets table only grow. A row is stored,
    then a row is deleted (the new one or an older one), then a second row
    is stored: the id of the second row is larger than the id of the first,
    and the deleted id fetches nothing, before and after the second store. *)
Theorem deleted_id_not_reused service username ct nonce deleted service' username' ct' nonce' w :
  deleted ≤ next_rowid (passwords_seq (db w)) (map pw_id (passwords (db w))) →
  let id1 := next_rowid (passwords_seq (db w)) (map pw_id (passwords (db w))) in
  let w1 := world_of (db_manager.store_password service username ct nonce w) in
  let w2 := world_of (db_manager.delete_password deleted w1) in
  let id3 := next_rowid (passwords_seq (db w2)) (map pw_id (passwords (db w2))) in
  let w3 := world_of (db_manager.store_password service' username' ct' nonce' w2) in
  id1 < id3 ∧
  result_of (db_manager.get_password_by_id deleted w2) = Ok None ∧
  result_of (db_manager.get_password_by_id deleted w3) = Ok None ∧
  result_of (db_manager.get_password_by_id id3 w3)
  = Ok (Some {| pw_id := id3; pw_service := service'; pw_username := username';
                pw_encrypted_data := ct'; pw_nonce := nonce' |}).
Proof.
  intros Hd id1 w1 w2 id3 w3.
  assert (E1 : db w1 = db_manager.insert_password service username ct nonce (db w)).
  { unfold w1. by rewrite store_password_run. }
  assert (E2 : db w2 = set_passwords (filter (λ r, pw_id r ≠ deleted) (passwords (db w1)))
                         (passwords_seq (db w1)) (db w1)).
  { unfold w2, db_manager.delete_password, db_manager.create_snapshot, db_manager.execute,
      world_of. unfold_monad. done. }
  assert (Hseq : passwords_seq (db w2) = id1).
  { rewrite E2. cbn [passwords_seq set_passwords]. by rewrite E1. }
  assert (Hlt : id1 < id3).
  { unfold id3. rewrite Hseq. apply max_rowid_le. }
  assert (Hgone : find_password deleted (db w2) = None).
  { rewrite E2, find_password_deleted. by rewrite decide_True. }
  split; [done|]. split; [|split].
  - rewrite get_password_by_id_run. unfold result_of. cbn [snd]. by rewrite Hgone.
  - unfold w3. rewrite store_password_run. unfold world_of. cbn [fst snd].
    rewrite get_password_by_id_run. unfold result_of. cbn [snd db after_write].
    rewrite find_password_inserted, Hgone. fold id3.
    rewrite decide_False; [done|]. fold id1 in Hd. lia.
  - unfold w3. rewrite store_password_run. unfold world_of. cbn [fst snd].
    rewrite get_password_by_id_run. unfold result_of. cbn [snd db after_write].
    unfold id3. by rewrite find_password_stored.
Qed.
End secrets_table.

(** ** Text, keys and the first unlock *)

Section text_and_keys.
Context `{Primitives}.

(** X19. Under a live key of 32 bytes, [encrypt] of a text and
    [decrypt] of the nonce and ciphertext it returns give the text back:
    the UTF-8 encoding on the way in is undone on the way out. *)
Theorem text_round_trip `{!AeadLaws} `{!CodecLaws} c key plaintext w :
  master_key c = Some key → length key = 32%nat →
  ∃ t w1 enc,
    crypto_manager.encrypt c plaintext w = (t, w1, Ok enc) ∧
    ∀ w2, crypto_manager.decrypt c (enc_nonce enc) (enc_ciphertext enc) w2
          = ([AeadDecrypt (enc_nonce enc) (enc_ciphertext enc)], w2, Ok plaintext).
Proof.
  intros Hk Hl. eexists _, _, _. unfold crypto_manager.encrypt.
  split; [by apply (encrypt_bytes_spec c key)|]. intros w2.
  rewrite (decrypt_spec c key) by done. cbn -[seq].
  rewrite aead_round_trip; [|done|by rewrite length_map, length_seq].
  by rewrite decode_encode.
Qed.

(** X1. Whatever requests are served, in whatever order and with
    whatever outcome, no id comes to occur twice in the secrets table or in
    the attachment table. *)
Theorem requests_keep_primary_keys reqs w :
  primary_keys (db w) → primary_keys (db (serve reqs w).2).
Proof.
  revert w. induction reqs as [|req reqs IH]; intros w Hw; [done|].
  pose proof (handle_preserves_primary_keys req w Hw) as Hstep.
  unfold world_of in Hstep. cbn [serve].
  destruct (app.handle req w) as [[t w1] r]. cbn [fst snd] in Hstep.
  specialize (IH w1 Hstep). by destruct (serve reqs w1) as [rs w2].
Qed.

Lemma lock_vault_run w :
  app.lock_vault w = ([], set_crypto {| master_key := None |} w, Ok (Message "Vault locked")).
Proof. unfold app.lock_vault. unfold_monad. done. Qed.

Lemma initialize_vault_run password key w :
  no_master_config (db w) →
  hash_secret_raw (str_encode password) (map (entropy w) (seq (drawn w) 16)) = Some key →
  let salt := map (entropy w) (seq (drawn w) 16) in
  let r := map (entropy w) (seq (drawn w + 16)%nat 16) in
  app.initialize_vault password w
  = ([DbRead TConfig; DbRead TConfig; Urandom 16; Urandom 16; HashCall password;
      DbWrite TConfig; DbWrite TConfig; KdfCall (str_encode password) salt],
     {| db := set_config
                (<["password_hash" := str_encode (ph_hash r password)]>
                   (<["salt" := salt]> (config (db w)))) (db w);
        snapshots := snapshots w;
        crypto := {| master_key := Some key |};
        entropy := entropy w; drawn := (drawn w + 32)%nat; now := now w |},
     Ok (Message "Vault initialized and unlocked")).
Proof.
  intros Hn Hk salt r. unfold app.initialize_vault.
  unfold mbind, M_bind. unfold bind at 1. rewrite (get_master_config_none _ Hn).
  cbn -[seq].
  unfold crypto_manager.generate_salt, crypto_manager.ph_hash_call, os_urandom,
    db_manager.set_master_config, db_manager.execute, app.call_mut,
    crypto_manager.unlock, crypto_manager.derive_key.
  unfold_monad. cbn -[seq]. rewrite Hk. cbn -[seq].
  do 2 f_equal. unfold set_crypto, set_db, set_config, set_drawn. cbn -[seq].
  f_equal. lia.
Qed.

(** X11. After [init] with a password on an uninitialized
    vault, [lock] and then [unlock] with the same password bring back the
    very world [init] left: the verifier stored by [init] accepts the
    password and the key derived at [unlock] is the key derived at [init]. *)
Theorem init_lock_unlock `{!KdfLaws} `{!HasherLaws} `{!CodecLaws} password w :
  no_master_config (db w) →
  let w1 := world_of (app.initialize_vault password w) in
  let w2 := world_of (app.lock_vault w1) in
  crypto_manager.is_unlocked (crypto w1) = true ∧
  crypto_manager.is_unlocked (crypto w2) = false ∧
  world_of (app.unlock_vault password w2) = w1 ∧
  result_of (app.unlock_vault password w2) = Ok (Message "Vault unlocked").
Proof.
  intros Hn w1 w2.
  destruct (kdf_total (str_encode password) (map (entropy w) (seq (drawn w) 16)))
    as [key Hk].
  { by rewrite length_map, length_seq. }
  pose proof (initialize_vault_run password key w Hn Hk) as Hrun. cbv zeta in Hrun.
  set (salt := map (entropy w) (seq (drawn w) 16)) in *.
  set (r := map (entropy w) (seq (drawn w + 16)%nat 16)) in *.
  assert (E1 : w1 = {| db := set_config
                (<["password_hash" := str_encode (ph_hash r password)]>
                   (<["salt" := salt]> (config (db w)))) (db w);
        snapshots := snapshots w;
        crypto := {| master_key := Some key |};
        entropy := entropy w; drawn := (drawn w + 32)%nat; now := now w |}).
  { unfold w1. by rewrite Hrun. }
  assert (E2 : w2 = set_crypto {| master_key := None |} w1).
  { unfold w2. by rewrite lock_vault_run. }
  assert (Hc : has_master_config (db w2) salt (ph_hash r password)).
  { rewrite E2, E1. unfold has_master_config. cbn -[seq].
    split; [by rewrite lookup_insert_ne, lookup_insert_eq|].
    split; [unfold salt; by rewrite length_map, length_seq|].
    eexists. split; [by rewrite lookup_insert_eq|]. split; [apply decode_encode|].
    apply hasher_nonempty. }
  assert (Hacc : ph_verify (ph_hash r password) password = true).
  { apply hasher_accepts. unfold r. by rewrite length_map, length_seq. }
  rewrite (unlock_vault_spec _ _ _ _ Hc), Hacc, Hk.
  split; [by rewrite E1|]. split; [by rewrite E2|]. split; [|done].
  unfold world_of. cbn [fst snd]. by rewrite E2, E1.
Qed.
End text_and_keys.

(** ** The further properties at concrete requests *)




Lemma add_then_list_witness :
  result_of (app.list_passwords (world_of (app.add_password StandIn.entry2 StandIn.world1)))
  = Ok (PasswordList
          [ {| resp_id := 1; resp_service := "email"; resp_username := "a@x.com";
               resp_password := "hunter2" |};
            {| resp_id := 2; resp_service := "bank"; resp_username := "b@x.com";
               resp_password := "correct horse" |} ]).
Proof.
  destruct (add_then_list StandIn.entry2 StandIn.key1 StandIn.world1)
    as (listed & Hbefore & Hafter).
  - by vm_compute.
  - by vm_compute.
  - rewrite Hafter. vm_compute in Hbefore. injection Hbefore as <-. by vm_compute.
Defined.

Lemma unlock_uninitialized_witness :
  app.unlock_vault "Secret1" StandIn.world0
  = ([DbRead TConfig; DbRead TConfig], StandIn.world0,
     Raise (HTTPException 400 [Lit "Vault not initialized"])).
Proof.
  apply (unlock_uninitialized StandIn.world0 "Secret1"). by split.
Defined.

Lemma lock_then_unlock_witness :
  world_of (app.unlock_vault "Secret1" (world_of (app.lock_vault StandIn.world1)))
  = StandIn.world1.
Proof.
  destruct (lock_then_unlock StandIn.world1 "Secret1" _ _ StandIn.key1
              StandInLaws.world1_config) as [_ Hrun].
  - by vm_compute.
  - by vm_compute.
  - by vm_compute.
  - by rewrite Hrun.
Defined.

Lemma rotation_rejects_wrong_current_password_witness :
  app.change_master_password "guess" "Secret2" StandIn.world1
  = ([DbRead TConfig; DbRead TConfig; VerifyCall (Some "$stand-in$Secret1") "guess"],
     StandIn.world1, Raise (HTTPException 401 [Lit "Invalid current password"])).
Proof.
  apply (rotation_rejects_wrong_current_password StandIn.world1 "guess" "Secret2" _ _
           eq_refl StandInLaws.world1_config).
  by vm_compute.
Defined.

Lemma rotation_goes_through_witness :
  ∃ t new_key,
    app.change_master_password "Secret1" "Secret2" StandIn.world1
    = (t, rotated StandIn.world1 "Secret2" new_key,
       Ok (Message "Master password changed successfully")) ∧
    snapshots (rotated StandIn.world1 "Secret2" new_key) !! now StandIn.world1
    = Some (db StandIn.world1).
Proof.
  destruct (rotation_goes_through StandIn.world1 "Secret1" "Secret2" "$stand-in$Secret1")
    as (t & new_key & Hrun & _ & Hsnap & _).
  - by vm_compute.
  - eexists. split; by vm_compute.
  - by vm_compute.
  - repeat constructor. eexists. by vm_compute.
  - by exists t, new_key.
Defined.

Lemma rotation_keeps_listing_witness :
  result_of (app.list_passwords
               (world_of (app.change_master_password "Secret1" "Secret2" StandIn.world1)))
  = result_of (app.list_passwords StandIn.world1).
Proof.
  apply (rotation_keeps_listing StandIn.world1 "Secret1" "Secret2" _ _ _
           ltac:(vm_compute; repeat constructor; by intros ?%elem_of_nil)
           StandInLaws.world1_rotation).
Defined.

Lemma read_only_requests_witness :
  world_of (app.handle (DownloadAttachment 1) StandIn.world1) = StandIn.world1.
Proof. by apply (read_only_requests (DownloadAttachment 1) StandIn.world1). Defined.



Lemma snapshot_same_second_witness :
  snapshots
    (world_of (app.add_password StandIn.entry1
       (at_time (now StandIn.world1)
          (world_of (app.add_password StandIn.entry2 StandIn.world1)))))
  = <[now StandIn.world1 := db (world_of (app.add_password StandIn.entry2 StandIn.world1))]>
      (snapshots StandIn.world1).
Proof.
  destruct (snapshot_same_second StandIn.entry2 StandIn.entry1 StandIn.key1
              (now StandIn.world1) StandIn.world1) as (_ & _ & _ & Hsame).
  - by vm_compute.
  - by vm_compute.
  - by apply Hsame.
Defined.

Lemma update_then_get_witness :
  result_of (db_manager.get_password_by_id 1
               (world_of (db_manager.update_password 1 "mail" "c@x.com" [Byte.x01] [Byte.x02]
                            StandIn.world1)))
  = Ok (Some {| pw_id := 1; pw_service := "mail"; pw_username := "c@x.com";
                pw_encrypted_data := [Byte.x01]; pw_nonce := [Byte.x02] |}).
Proof.
  destruct (update_then_get 1 "mail" "c@x.com" [Byte.x01] [Byte.x02] StandIn.world1)
    as (Hget & _).
  apply Hget. vm_compute. apply list_elem_of_here.
Defined.

Lemma deleted_id_not_reused_witness :
  result_of (db_manager.get_password_by_id 2
    (world_of (db_manager.store_password "b" "u" [Byte.x03] [Byte.x04]
      (world_of (db_manager.delete_password 2
        (world_of (db_manager.store_password "a" "u" [Byte.x01] [Byte.x02]
                     StandIn.world1)))))))
  = Ok None.
Proof.
  destruct (deleted_id_not_reused "a" "u" [Byte.x01] [Byte.x02] 2 "b" "u" [Byte.x03] [Byte.x04]
              StandIn.world1) as (_ & _ & Hgone & _).
  - by vm_compute.
  - exact Hgone.
Defined.

Lemma text_round_trip_witness :
  ∃ t w1 enc,
    crypto_manager.encrypt {| master_key := Some StandIn.key32 |} "hunter2" StandIn.world0
    = (t, w1, Ok enc) ∧
    ∀ w2, crypto_manager.decrypt {| master_key := Some StandIn.key32 |}
            (enc_nonce enc) (enc_ciphertext enc) w2
          = ([AeadDecrypt (enc_nonce enc) (enc_ciphertext enc)], w2, Ok "hunter2").
Proof.
  apply (text_round_trip {| master_key := Some StandIn.key32 |} StandIn.key32 "hunter2"
           StandIn.world0).
  - done.
  - by vm_compute.
Defined.

Lemma requests_keep_primary_keys_witness :
  primary_keys
    (db (serve [InitializeVault "Secret1"; AddPassword StandIn.entry1;
                AddPassword StandIn.entry2; UploadAttachment 1 "notes.txt" [Byte.x41];
                ChangeMasterPassword "Secret1" "Secret2"; DeleteAttachment 1;
                AddPassword StandIn.entry1] StandIn.world0).2).
Proof.
  apply (requests_keep_primary_keys _ StandIn.world0). apply empty_db_primary_keys.
Defined.

Lemma init_lock_unlock_witness :
  world_of (app.unlock_vault "Secret1"
              (world_of (app.lock_vault
                           (world_of (app.initialize_vault "Secret1" StandIn.world0)))))
  = world_of (app.initialize_vault "Secret1" StandIn.world0).
Proof.
  destruct (init_lock_unlock "Secret1" StandIn.world0) as (_ & _ & Hback & _).
  - by split.
  - exact Hback.
Defined.

Lemma rotation_can_be_repeated_witness :
  result_of (app.change_master_password "Secret2" "Secret3"
               (world_of (app.change_master_password "Secret1" "Secret2" StandIn.world1)))
  = Ok (Message "Master password changed successfully").
Proof.
  destruct (rotation_can_be_repeated StandIn.world1 "Secret1" "Secret2" "Secret3" _ _ _
              ltac:(vm_compute; repeat constructor; by intros ?%elem_of_nil)
              StandInLaws.world1_rotation) as [_ Hagain].
  exact Hagain.
Defined.
